(** * inter-service-sdk: the release script and the request dispatcher

    A shallow embedding of [build_and_publish.py] (version bump, version
    rewrite in [pyproject.toml] and [inter_service_sdk/__init__.py],
    dependency pin rewrite) together with the Python built-ins it calls,
    followed by a model of the request dispatcher of the SDK client.

    Python [str] values are lists of characters.  A character is a code
    point below 256 ([ascii]); on that range the built-ins below are those
    of CPython 3.11 with its default settings ([str.split],
    [str.startswith], [str.join], [int], [str] of an [int], text-mode
    [open], [re.sub] with its replacement template).  Python [int] is [Z],
    and the conversions between [int] and [str] refuse more than
    [int_max_str_digits] digits, as the interpreter does. *)

From Stdlib Require Import List Ascii String ZArith Lia Bool.
From Stdlib Require Import DecimalFacts DecimalPos DecimalZ.
From stdpp Require Import gmap strings list.

Local Open Scope list_scope.
Local Open Scope Z_scope.

(** ** Python strings *)

Abbreviation str := (list ascii).

Definition lit (s : string) : str := list_ascii_of_string s.
Notation "$ s" := (lit s) (at level 1, s at level 0, format "$ s").

(** ** Exceptions

    [ValueError] is raised by [int] with two messages: the literal that is
    no integer ([ValueError]), or that the digit limit of the conversion is
    exceeded ([ValueErrorLimit]); [str] of an [int] raises the second. *)

Inductive exn : Type :=
| ValueError (literal : str)
| ValueErrorLimit
| FileNotFoundError (path : string).

Inductive result (A : Type) : Type :=
| Ok (a : A)
| Raise (e : exn).
Arguments Ok {A} a.
Arguments Raise {A} e.

#[global] Instance result_ret : MRet result := fun A a => Ok a.
#[global] Instance result_bind : MBind result := fun A B k r =>
  match r with
  | Ok a => k a
  | Raise e => Raise e
  end.

Module PyStr.

(** [s.split(sep)] for a one-character separator: every occurrence of the
    separator ends a part, so the result is never empty and has one part
    more than [s] has separators. *)
Fixpoint split (sep : ascii) (s : str) : list str :=
  match s with
  | [] => [[]]
  | c :: s' =>
      if Ascii.eqb c sep then [] :: split sep s'
      else match split sep s' with
           | part :: parts => (c :: part) :: parts
           | [] => [[c]]
           end
  end.

(** [sep.join(parts)]. *)
Fixpoint join (sep : str) (parts : list str) : str :=
  match parts with
  | [] => []
  | [p] => p
  | p :: rest => p ++ sep ++ join sep rest
  end.

(** [s.startswith(prefix)]. *)
Fixpoint startswith (s pre : str) : bool :=
  match pre, s with
  | [], _ => true
  | _ :: _, [] => false
  | p :: pre', c :: s' => Ascii.eqb c p && startswith s' pre'
  end.

(** The characters [int] skips at both ends of its argument: the C
    white space and, above 127, the Unicode white space (NEL and NBSP are
    the two below 256).  The separators 28..31, which [str.isspace]
    accepts, are not skipped by [int]. *)
Definition int_space (c : ascii) : bool :=
  let n := nat_of_ascii c in
  ((9 <=? n) && (n <=? 13) || (n =? 32) || (n =? 133) || (n =? 160))%nat.

Fixpoint lstrip (s : str) : str :=
  match s with
  | c :: s' => if int_space c then lstrip s' else s
  | [] => []
  end.

(** One decimal digit, as the constructor it adds in front of a numeral. *)
Definition digit (c : ascii) : option (Decimal.uint -> Decimal.uint) :=
  match nat_of_ascii c with
  | 48 => Some Decimal.D0 | 49 => Some Decimal.D1 | 50 => Some Decimal.D2
  | 51 => Some Decimal.D3 | 52 => Some Decimal.D4 | 53 => Some Decimal.D5
  | 54 => Some Decimal.D6 | 55 => Some Decimal.D7 | 56 => Some Decimal.D8
  | 57 => Some Decimal.D9
  | _ => None
  end%nat.

(** The digits and underscores at the start of [s], which [int] scans
    before it looks at anything else, and what follows them. *)
Fixpoint scan_numeral (s : str) : str * str :=
  match s with
  | c :: s' =>
      if (match digit c with Some _ => true | None => Ascii.eqb c "_" end) then
        let (run, rest) := scan_numeral s' in (c :: run, rest)
      else ([], s)
  | [] => ([], [])
  end.

(** What may follow a digit of an integer literal: nothing, a digit, or one
    underscore that is itself followed by a digit. *)
Fixpoint digits_tail (s : str) : option Decimal.uint :=
  match s with
  | [] => Some Decimal.Nil
  | c :: s' =>
      match digit c with
      | Some d => d <$> digits_tail s'
      | None =>
          if Ascii.eqb c "_" then
            match s' with
            | c' :: s'' =>
                match digit c' with
                | Some d => d <$> digits_tail s''
                | None => None
                end
            | [] => None
            end
          else None
      end
  end.

Definition digits (s : str) : option Decimal.uint :=
  match s with
  | c :: s' =>
      match digit c with
      | Some d => d <$> digits_tail s'
      | None => None
      end
  | [] => None
  end.

(** The sign in front of a literal, and what follows it. *)
Definition sign (s : str) : (Decimal.uint -> Decimal.int) * str :=
  match s with
  | c :: s' =>
      if Ascii.eqb c "-" then (Decimal.Neg, s')
      else if Ascii.eqb c "+" then (Decimal.Pos, s')
      else (Decimal.Pos, s)
  | [] => (Decimal.Pos, [])
  end.

(** [sys.int_info.default_max_str_digits]: the most digits [int] reads and
    [str] writes.  (The interpreter applies the limit only above 640
    digits, which the default exceeds.) *)
Definition int_max_str_digits : nat := 4300.

(** [int(s)] in base 10, as the interpreter goes: white space and a sign
    are passed, the digits and underscores are scanned and checked (a digit
    first, underscores single and between digits), then the digits are
    counted against the limit, leading zeros included, and only then the
    rest is looked at, which must be white space. *)
Definition int (s : str) : result Z :=
  let (signed, body) := sign (lstrip s) in
  let (run, rest) := scan_numeral body in
  match digits run with
  | Some d =>
      if (int_max_str_digits <? Decimal.nb_digits d)%nat then Raise ValueErrorLimit
      else if forallb int_space rest then Ok (Z.of_int (signed d))
      else Raise (ValueError s)
  | None => Raise (ValueError s)
  end.

Definition digit_char (n : nat) : ascii := ascii_of_nat (48 + n).

Fixpoint show_uint (d : Decimal.uint) : str :=
  match d with
  | Decimal.Nil => []
  | Decimal.D0 d' => digit_char 0 :: show_uint d'
  | Decimal.D1 d' => digit_char 1 :: show_uint d'
  | Decimal.D2 d' => digit_char 2 :: show_uint d'
  | Decimal.D3 d' => digit_char 3 :: show_uint d'
  | Decimal.D4 d' => digit_char 4 :: show_uint d'
  | Decimal.D5 d' => digit_char 5 :: show_uint d'
  | Decimal.D6 d' => digit_char 6 :: show_uint d'
  | Decimal.D7 d' => digit_char 7 :: show_uint d'
  | Decimal.D8 d' => digit_char 8 :: show_uint d'
  | Decimal.D9 d' => digit_char 9 :: show_uint d'
  end.

(** [z] written in base 10. *)
Definition decimal (z : Z) : str :=
  match Z.to_int z with
  | Decimal.Pos d => show_uint d
  | Decimal.Neg d => "-"%char :: show_uint d
  end.

(** The number of digits of [z] in base 10. *)
Definition int_digits (z : Z) : nat :=
  match Z.to_int z with
  | Decimal.Pos d | Decimal.Neg d => Decimal.nb_digits d
  end.

(** [str(z)], also what an f-string writes for an [int]: [z] in base 10,
    unless it has more digits than the limit (the sign is not counted). *)
Definition format_int (z : Z) : result str :=
  if (int_max_str_digits <? int_digits z)%nat then Raise ValueErrorLimit
  else Ok (decimal z).

End PyStr.

(** [int(s)]: the value, or [ValueError] naming the literal or the limit. *)
Definition py_int (s : str) : result Z := PyStr.int s.

(** ** build_and_publish.py *)

Definition dot : ascii := ".".

(** [increment_version]: the three parts are converted left to right, so
    the first part [int] refuses is the one [ValueError] is about; then the
    f-string writes the three numbers, left to right as well. *)
Definition increment_version (version_str : str) : result str :=
  match PyStr.split dot version_str with
  | [p0; p1; p2] =>
      major ← py_int p0;
      minor ← py_int p1;
      patch ← py_int p2;
      major_text ← PyStr.format_int major;
      minor_text ← PyStr.format_int minor;
      patch_text ← PyStr.format_int (patch + 1);
      Ok (major_text ++ [dot] ++ minor_text ++ [dot] ++ patch_text)
  | _ => Ok version_str
  end.

(** *** Files

    A file system maps a path to the characters stored in the file.  The
    script opens its files in text mode with the default [newline=None]:
    reading turns every ["\r\n"] and every lone ["\r"] into ["\n"], and
    writing turns every ["\n"] into the platform's line separator.
    Decoding and encoding are taken to round-trip, as UTF-8 does on the
    files it can decode.  What the script prints is not modelled. *)

Definition LF : ascii := "010".
Definition CR : ascii := "013".
Definition dq : ascii := "034".

Inductive platform : Type := Posix | Windows.

Definition linesep (os : platform) : str :=
  match os with
  | Posix => [LF]
  | Windows => [CR; LF]
  end.

Fixpoint read_newlines (raw : str) : str :=
  match raw with
  | [] => []
  | c :: raw' =>
      if Ascii.eqb c CR then
        LF :: read_newlines
                (match raw' with
                 | c' :: raw'' => if Ascii.eqb c' LF then raw'' else raw'
                 | [] => raw'
                 end)
      else c :: read_newlines raw'
  end.

Fixpoint write_newlines (os : platform) (text : str) : str :=
  match text with
  | [] => []
  | c :: text' =>
      (if Ascii.eqb c LF then linesep os else [c]) ++ write_newlines os text'
  end.

(** [open(path, "r").read()]. *)
Definition read_text (fs : gmap string str) (path : string) : result str :=
  match fs !! path with
  | Some raw => Ok (read_newlines raw)
  | None => Raise (FileNotFoundError path)
  end.

(** [open(path, "w").write(text)]. *)
Definition write_text (os : platform) (fs : gmap string str) (path : string)
    (text : str) : gmap string str :=
  <[path := write_newlines os text]> fs.

(** The index [i] at which [for i, line in enumerate(lines)] meets the first
    line starting with [pre]. *)
Fixpoint first_line_with (pre : str) (lines : list str) : option nat :=
  match lines with
  | [] => None
  | line :: rest =>
      if PyStr.startswith line pre then Some 0%nat
      else S <$> first_line_with pre rest
  end.

(** The loop [if line.startswith(pre): lines[i] = new; break]. *)
Definition replace_first_line (pre new : str) (lines : list str) : list str :=
  match first_line_with pre lines with
  | Some i => <[i := new]> lines
  | None => lines
  end.

Definition pyproject : string := "pyproject.toml".
Definition init_file : string := "inter_service_sdk/__init__.py".

Definition version_line (new_version : str) : str :=
  $"version = " ++ [dq] ++ new_version ++ [dq].
Definition dunder_version_line (new_version : str) : str :=
  $"__version__ = " ++ [dq] ++ new_version ++ [dq].

(** Read a file, replace its first line starting with [pre], write it back. *)
Definition rewrite_file (os : platform) (path : string) (pre new : str)
    (fs : gmap string str) : result (gmap string str) :=
  content ← read_text fs path;
  let lines := PyStr.split LF content in
  let lines := replace_first_line pre new lines in
  Ok (write_text os fs path (PyStr.join [LF] lines)).

(** [update_version_in_files]: [pyproject.toml] must exist;
    [inter_service_sdk/__init__.py] is rewritten only if it exists. *)
Definition update_version_in_files (os : platform) (new_version : str)
    (fs : gmap string str) : result (gmap string str) :=
  fs ← rewrite_file os pyproject $"version" (version_line new_version) fs;
  match fs !! init_file with
  | Some _ =>
      rewrite_file os init_file $"__version__" (dunder_version_line new_version) fs
  | None => Ok fs
  end.

(** *** The dependency pin

    [re.sub(r'inter-service-sdk==[\d\.]+', f'inter-service-sdk=={new_version}', content)]:
    the text is scanned from the left; where the literal is followed by at
    least one digit or dot, the literal and the longest run of digits and
    dots are replaced and the scan resumes after the run; elsewhere the
    character is kept. *)

Definition pin_literal : str := $"inter-service-sdk==".

(** The class [[\d\.]]. *)
Definition version_char (c : ascii) : bool :=
  let n := nat_of_ascii c in
  ((48 <=? n) && (n <=? 57) || (n =? 46))%nat.

Fixpoint take_version (s : str) : str :=
  match s with
  | c :: s' => if version_char c then c :: take_version s' else []
  | [] => []
  end.

(** The length of the match of the pattern at the start of [s], if any. *)
Definition match_pin (s : str) : option nat :=
  if PyStr.startswith s pin_literal then
    match take_version (drop (length pin_literal) s) with
    | [] => None
    | run => Some (length pin_literal + length run)%nat
    end
  else None.

(** [skip] counts the characters of the current match still to pass. *)
Fixpoint sub_pin (repl : str) (skip : nat) (s : str) : str :=
  match s with
  | [] => []
  | c :: s' =>
      match skip with
      | S k => sub_pin repl k s'
      | O =>
          match match_pin s with
          | Some n => repl ++ sub_pin repl (n - 1) s'
          | None => c :: sub_pin repl 0 s'
          end
      end
  end.

(** The substitution with the replacement taken as it stands. *)
Definition substitute_pin (new_version content : str) : str :=
  sub_pin (pin_literal ++ new_version) 0 content.

Definition backslash : ascii := "092".

(** [re.sub] takes a replacement without a backslash as it stands.  With a
    backslash the replacement goes through the template compiler below, and
    this function answers [None]. *)
Definition pin_dependency (new_version content : str) : option str :=
  if existsb (Ascii.eqb backslash) (pin_literal ++ new_version) then None
  else Some (substitute_pin new_version content).

(** *** The replacement template

    [re] compiles a replacement with a backslash into literal characters
    and group references.  The pattern of the pin has no group, so the only
    reference that stands is the one to the whole match, [\g<n>] with [n]
    an integer literal [int] reads as zero; a name, or another number, is
    refused.  [\0], [\0o], [\0oo] and [\ooo] up to [\377] are the character
    with that octal code; another [\d] or [\dd] is a group reference, so it
    is refused; the letters [a b f n r t v] and the backslash are the
    escapes of C; another ASCII letter is refused; any other character
    stays with its backslash.  A backslash at the end is refused. *)

Inductive template_item : Type :=
| Literal (c : ascii)
| WholeMatch.

Definition octal (c : ascii) : option nat :=
  let n := nat_of_ascii c in
  if ((48 <=? n) && (n <=? 55))%nat then Some (n - 48)%nat else None.

Definition ascii_letter (c : ascii) : bool :=
  let n := nat_of_ascii c in
  ((65 <=? n) && (n <=? 90) || (97 <=? n) && (n <=? 122))%nat.

Definition escape (c : ascii) : option ascii :=
  match c with
  | "a" => Some "007" | "b" => Some "008" | "f" => Some "012"
  | "n" => Some "010" | "r" => Some "013" | "t" => Some "009"
  | "v" => Some "011" | "\" => Some "\"
  | _ => None
  end%char.

(** [name] is [None] between escapes and, inside [\g<], the characters of
    the group name read so far, last first.  [None] as the answer is the
    exception [re] raises ([re.error], or [IndexError] for a name). *)
Fixpoint parse_template (name : option str) (s : str)
    : option (list template_item) :=
  match name with
  | Some read =>
      match s with
      | [] => None
      | c :: s' =>
          if Ascii.eqb c ">" then
            match py_int (rev read) with
            | Ok 0 => cons WholeMatch <$> parse_template None s'
            | _ => None
            end
          else parse_template (Some (c :: read)) s'
      end
  | None =>
      match s with
      | [] => Some []
      | c :: s' =>
          if Ascii.eqb c backslash then
            match s' with
            | [] => None
            | e :: s1 =>
                if Ascii.eqb e "g" then
                  match s1 with
                  | c1 :: s2 =>
                      if Ascii.eqb c1 "<" then parse_template (Some []) s2
                      else None
                  | [] => None
                  end
                else if Ascii.eqb e "0"%char then
                  match s1 with
                  | o1 :: s2 =>
                      match octal o1 with
                      | Some v1 =>
                          match s2 with
                          | o2 :: s3 =>
                              match octal o2 with
                              | Some v2 =>
                                  cons (Literal (ascii_of_nat (8 * v1 + v2)))
                                    <$> parse_template None s3
                              | None =>
                                  cons (Literal (ascii_of_nat v1))
                                    <$> parse_template None s2
                              end
                          | [] => Some [Literal (ascii_of_nat v1)]
                          end
                      | None => cons (Literal zero) <$> parse_template None s1
                      end
                  | [] => Some [Literal zero]
                  end
                else
                  match PyStr.digit e with
                  | Some _ =>
                      match s1 with
                      | o1 :: o2 :: s3 =>
                          match octal e, octal o1, octal o2 with
                          | Some v0, Some v1, Some v2 =>
                              if (64 * v0 + 8 * v1 + v2 <=? 255)%nat then
                                cons (Literal (ascii_of_nat (64 * v0 + 8 * v1 + v2)))
                                  <$> parse_template None s3
                              else None
                          | _, _, _ => None
                          end
                      | _ => None
                      end
                  | None =>
                      match escape e with
                      | Some x => cons (Literal x) <$> parse_template None s1
                      | None =>
                          if ascii_letter e then None
                          else (fun items => Literal backslash :: Literal e :: items)
                                 <$> parse_template None s1
                      end
                  end
            end
          else cons (Literal c) <$> parse_template None s'
      end
  end.

(** What the template stands for at one match. *)
Definition expand_template (template : list template_item) (matched : str) : str :=
  flat_map (fun item => match item with
                        | Literal c => [c]
                        | WholeMatch => matched
                        end) template.

(** The scan of [sub_pin], with the template expanded at every match. *)
Fixpoint sub_template (template : list template_item) (skip : nat) (s : str) : str :=
  match s with
  | [] => []
  | c :: s' =>
      match skip with
      | S k => sub_template template k s'
      | O =>
          match match_pin s with
          | Some n =>
              expand_template template (take n s)
              ++ sub_template template (n - 1) s'
          | None => c :: sub_template template 0 s'
          end
      end
  end.

(** The call [re.sub(r'inter-service-sdk==[\d\.]+',
    f'inter-service-sdk=={new_version}', content)]; [None] when [re]
    refuses the template, which it does whether the pattern matches or not. *)
Definition re_sub_pin (new_version content : str) : option str :=
  match pin_dependency new_version content with
  | Some updated_content => Some updated_content
  | None =>
      template ← parse_template None (pin_literal ++ new_version);
      Some (sub_template template 0 content)
  end.

(** One round of the loop of [update_dependent_projects]: the file is
    written back only if the substitution changed it, and [except Exception]
    leaves it as it is when [re.sub] raises. *)
Definition update_requirements (os : platform) (new_version : str)
    (fs : gmap string str) (req_file : string) : gmap string str :=
  match fs !! req_file with
  | Some raw =>
      let content := read_newlines raw in
      match re_sub_pin new_version content with
      | Some updated_content =>
          if decide (updated_content = content) then fs
          else write_text os fs req_file updated_content
      | None => fs
      end
  | None => fs
  end.

Definition projects : list string :=
  ["../auto_login/requirements.txt"; "../browser-ninja/requirements.txt"]%string.

Definition update_dependent_projects (os : platform) (new_version : str)
    (fs : gmap string str) : gmap string str :=
  foldl (update_requirements os new_version) fs projects.

(** *** Reading the current version

    [get_current_version] iterates over the open file, which yields the
    lines of the text with their newline kept (the last line has none when
    the text does not end in one). *)

(** [for line in f] on a text-mode file holding [text]. *)
Fixpoint iter_lines (text : str) : list str :=
  match text with
  | [] => []
  | c :: text' =>
      if Ascii.eqb c LF then [LF] :: iter_lines text'
      else match iter_lines text' with
           | line :: lines => (c :: line) :: lines
           | [] => [[c]]
           end
  end.

(** How a call of [get_current_version] ends: with a value, with an
    exception of [exn] ([FileNotFoundError] from [open]), or with the
    [IndexError] of taking part 1 of the line split at the double quotes
    when the line has no double quote. *)
Inductive version_outcome : Type :=
| Returned (version : str)
| Raised (e : exn)
| RaisedIndexError.

(** The loop of [get_current_version] over the lines of the file. *)
Definition version_of_lines (lines : list str) : version_outcome :=
  match find (fun line => PyStr.startswith line $"version") lines with
  | Some line =>
      match PyStr.split dq line with
      | _ :: version :: _ => Returned version
      | _ => RaisedIndexError
      end
  | None => Returned $"unknown"
  end.

Definition get_current_version (fs : gmap string str) : version_outcome :=
  match fs !! pyproject with
  | Some raw => version_of_lines (iter_lines (read_newlines raw))
  | None => Raised (FileNotFoundError pyproject)
  end.

(** *** Vocabulary of the statements about the release script *)

(** The characters of a written integer: decimal digits and the sign. *)
Definition numeral_char (c : ascii) : Prop :=
  is_Some (PyStr.digit c) \/ c = "-"%char.

(** The lines of a file as the script sees them: the text read, split at
    the newlines. *)
Definition text_lines (raw : str) : list str := PyStr.split LF (read_newlines raw).

(** The files [update_version_in_files] rewrites, each with the prefix it
    looks for and the line it writes. *)
Definition targets (new_version : str) : list (string * str * str) :=
  [(pyproject, $"version", version_line new_version);
   (init_file, $"__version__", dunder_version_line new_version)].

(** [new_lines] is [old_lines] with [new] in place of the first line that
    starts with [pre], if there is one. *)
Definition kept_but_first (pre new : str) (old_lines new_lines : list str) : Prop :=
  length new_lines = length old_lines /\
  forall j : nat,
    new_lines !! j =
      if decide (first_line_with pre old_lines = Some j) then Some new
      else old_lines !! j.

(** Every line of the stored characters [raw], split at the line feeds,
    stands at the same place in [raw'], the first line starting with [pre]
    apart. *)
Definition other_lines_kept (pre raw raw' : str) : Prop :=
  forall (j : nat) (line : str),
    PyStr.split LF raw !! j = Some line ->
    first_line_with pre (PyStr.split LF raw) <> Some j ->
    PyStr.split LF raw' !! j = Some line.

(** A project file with line-feed line ends, and the same with carriage
    return and line feed. *)
Definition lf_project : gmap string str :=
  {[ pyproject := $"[project]" ++ [LF] ++ version_line $"1.0.0" ++ [LF] ]}.

Definition crlf_project : gmap string str :=
  {[ pyproject := $"[project]" ++ [CR; LF] ++ version_line $"1.0.0" ++ [CR; LF] ]}.


(** The first number [str] refuses to write: a one and [int_max_str_digits]
    zeros. *)
Definition digit_limit : Z := 10 ^ Z.of_nat PyStr.int_max_str_digits.

(** A version whose patch number is as many nines as [int] reads. *)
Definition nines_version : str :=
  $"1.0." ++ repeat "9"%char PyStr.int_max_str_digits.
(** Whether [s] begins with a character of the class [[\d\.]]. *)
Definition starts_version (s : str) : bool :=
  match s with
  | c :: _ => version_char c
  | [] => false
  end.

(** A match of the pattern: the literal, a run of digits and dots that is
    not empty and cannot be made longer. *)
Definition pinned (s run rest : str) : Prop :=
  s = pin_literal ++ run ++ rest
  /\ run <> []
  /\ Forall (fun c => version_char c = true) run
  /\ starts_version rest = false.

(** The lines of a text with their newlines, from the text split at the
    newlines: every part but the last gets its newline back, and an empty
    last part is no line. *)
Fixpoint keepends (parts : list str) : list str :=
  match parts with
  | [] => []
  | part :: rest =>
      match rest with
      | [] => match part with [] => [] | _ => [part] end
      | _ => (part ++ [LF]) :: keepends rest
      end
  end.

(** The text a file holds once its first line starting with [pre] is
    replaced by [new]. *)
Definition rewritten_text (pre new raw : str) : str :=
  PyStr.join [LF] (replace_first_line pre new (text_lines raw)).

(** A version number as [increment_version] writes it. *)
Definition numeral_version (a b c : Z) : str :=
  PyStr.decimal a ++ [dot] ++ PyStr.decimal b ++ [dot] ++ PyStr.decimal c.

(** [n] releases in a row: [increment_version] applied [n] times. *)
Fixpoint bump_times (n : nat) (version : str) : result str :=
  match n with
  | O => Ok version
  | S n' => next ← increment_version version; bump_times n' next
  end.

(** What [update_dependent_projects] leaves in a requirements file that
    holds [raw]: the file as it is when [re.sub] raises or changes nothing,
    the substituted text written out otherwise. *)
Definition pinned_file (os : platform) (new_version raw : str) : str :=
  let content := read_newlines raw in
  match re_sub_pin new_version content with
  | Some updated_content =>
      if decide (updated_content = content) then raw
      else write_newlines os updated_content
  | None => raw
  end.

(** The text [s] holds the literal [inter-service-sdk==] somewhere. *)
Definition mentions_pin (s : str) : Prop :=
  exists before after : str, s = before ++ pin_literal ++ after.

(** A project whose version line is not the first line. *)
Definition release_project : gmap string str :=
  {[ pyproject := $"[project]" ++ [CR; LF] ++ $"name = x" ++ [CR; LF]
                  ++ version_line $"1.4.9" ++ [CR; LF] ++ $"versions = none";
     init_file := dunder_version_line $"1.4.9" ++ [LF] ]}.

(** Two dependent projects, one pinning the SDK and one not. *)
Definition dependents : gmap string str :=
  {[ "../auto_login/requirements.txt"%string :=
       $"requests>=2.0" ++ [CR; LF] ++ $"inter-service-sdk==1.4.9" ++ [CR; LF];
     "../browser-ninja/requirements.txt"%string :=
       $"selenium" ++ [CR; LF] ++ $"inter-service-sdk>=1.0" ++ [CR; LF] ]}.

(** ** The request dispatcher *)

Module Dispatcher.

Abbreviation bytes := (list Byte.byte).

(** Modelled from the spec: the HTTP method of a request descriptor
    (section 3); the client that declares the accepted methods is absent
    from the sources. *)
Inductive http_method : Type := GET | POST | PUT | PATCH | DELETE.

(** Modelled from the spec: what the transport collaborator consumes
    (section 6), the client that calls it being absent from the sources. *)
Record WireRequest : Type := {
  w_method : http_method;
  w_url : str;
  w_headers : list (str * str);
  w_body : option bytes;
  w_timeout : Z
}.

(** Modelled from the spec: what the transport collaborator produces
    (section 6), the client that calls it being absent from the sources: a
    transport-level error (timeout, connection reset) or a status code with
    the response body. *)
Inductive TransportOutcome : Type :=
| TransportFailure (message : string)
| HttpResponse (status : Z) (body : bytes).

(** Modelled from the spec: the collaborators of the dispatcher.  The SDK
    client ([inter_service_sdk/client.py]) and what it calls are not among
    the sources, so the transport, the serialization, the URL builder and
    the envelope cipher are taken by their contracts in the spec: the
    transport is a state machine answering one outcome per call; the URL
    builder and the cipher answer a value or the message of their
    [URLBuildError] or [EncryptionError]; the cipher is handed the
    configured key, which may be absent; [retryable_status] is the
    configured set of retryable status codes. *)
Class Collaborators : Type := {
  PublicKey : Type;
  PrivateKey : Type;
  ParamValue : Type;
  Data : Type;
  Entropy : Type;
  TransportState : Type;
  transport_send : TransportState -> WireRequest -> TransportOutcome * TransportState;
  serialize : Data -> bytes;
  deserialize : bytes -> Data;
  url_build : str -> str -> str -> list (str * ParamValue) -> list (str * str) ->
              string + str;
  envelope_encrypt : bytes -> str -> option PublicKey -> Entropy -> string + bytes;
  envelope_decrypt : bytes -> str -> option PrivateKey -> string + bytes;
  retryable_status : Z -> bool;
  auth_header : str;
  failure_message : Z -> bytes -> string
}.

Section Dispatch.
Context `{C : Collaborators}.

(** Modelled from the spec: the configuration surface of the client
    (section 6), the client itself being absent from the sources. *)
Record Config : Type := {
  base_url : str;
  default_api_prefix : option str;
  api_key : str;
  timeout : Z;
  retry_attempts : nat;
  peer_public_key : option PublicKey;
  own_private_key : option PrivateKey
}.

(** Modelled from the spec: the request descriptor of section 3, the
    client's [request] signature being absent from the sources. *)
Record RequestDescriptor : Type := {
  rd_endpoint : str;
  rd_method : http_method;
  rd_path_params : list (str * ParamValue);
  rd_query_params : list (str * str);
  rd_body : option Data;
  rd_headers : list (str * str);
  rd_encrypt : bool;
  rd_decrypt : bool;
  rd_api_prefix : option str
}.

(** Modelled from the spec: the tagged result of section 9, the client's
    result shape being absent from the sources. *)
Inductive ResponseResult : Type :=
| Success (status_code : Z) (data : Data)
| AuthError (status_code : Z)
| RequestFailed (status_code : option Z) (message : string)
| EncryptFailed (message : string)
| UrlBuildFailed (message : string).

(** Modelled from the spec: the status classes of state DONE (section
    4.4), the client's own tests being absent from the sources. *)
Definition is_success (status : Z) : bool := (200 <=? status) && (status <? 300).
Definition is_auth_failure (status : Z) : bool := (status =? 401) || (status =? 403).

(** Modelled from the spec: prefix resolution of section 4.3 (per-call
    override, then client default, then the empty string) in front of the
    absent URL builder. *)
Definition target_url (cfg : Config) (rd : RequestDescriptor) : string + str :=
  let prefix := default (default [] (default_api_prefix cfg)) (rd_api_prefix rd) in
  url_build (base_url cfg) prefix (rd_endpoint rd) (rd_path_params rd)
            (rd_query_params rd).

(** Modelled from the spec: the correlation id is the request's query value
    of that name (section 3); the client's lookup is absent from the sources,
    and a request without one is given the empty id here. *)
Fixpoint lookup_param (name : str) (params : list (str * str)) : option str :=
  match params with
  | [] => None
  | (k, v) :: rest => if decide (k = name) then Some v else lookup_param name rest
  end.

(** Modelled from the spec: the correlation id of a call, read as above;
    the client's own lookup is absent from the sources. *)
Definition correlation_id (rd : RequestDescriptor) : str :=
  default [] (lookup_param $"correlation_id" (rd_query_params rd)).

(** Modelled from the spec: state ENCRYPTING of section 4.4, absent from the
    sources.  With [encrypt] set the serialized body (empty when the request
    has none) goes through the cipher, whose failure ends the call. *)
Definition outgoing_body (cfg : Config) (rd : RequestDescriptor) (e : Entropy) :
    string + option bytes :=
  let plain := serialize <$> rd_body rd in
  if rd_encrypt rd then
    match envelope_encrypt (default [] plain) (correlation_id rd)
                           (peer_public_key cfg) e with
    | inl message => inl message
    | inr envelope => inr (Some envelope)
    end
  else inr plain.

(** Modelled from the spec: the request handed to the transport in state
    SENDING, absent from the sources.  The API key travels in the
    authentication header, which no caller-supplied header replaces. *)
Definition wire_request (cfg : Config) (rd : RequestDescriptor) (url : str)
    (body : option bytes) : WireRequest :=
  {| w_method := rd_method rd;
     w_url := url;
     w_headers := (auth_header, api_key cfg)
                  :: filter (fun h => h.1 <> auth_header) (rd_headers rd);
     w_body := body;
     w_timeout := timeout cfg |}.

(** Modelled from the spec: which outcome state RETRYING tries again
    (section 4.4 and the taxonomy of section 7), absent from the sources: a
    transport-level failure or a retryable status, never a 2xx and never
    401 or 403. *)
Definition should_retry (o : TransportOutcome) : bool :=
  match o with
  | TransportFailure _ => true
  | HttpResponse status _ =>
      negb (is_success status) && negb (is_auth_failure status)
      && retryable_status status
  end.

(** Modelled from the spec: states SENDING and RETRYING, absent from the
    sources.  At most [n] attempts are made, each with the same request; the
    answer is the last outcome observed (none when [n] is zero), the
    outcomes in the order observed, and the transport's final state. *)
Fixpoint attempts (n : nat) (w : WireRequest) (t : TransportState) :
    option TransportOutcome * list (WireRequest * TransportOutcome) * TransportState :=
  match n with
  | O => (None, [], t)
  | S n' =>
      let '(o, t1) := transport_send t w in
      match n' with
      | O => (Some o, [(w, o)], t1)
      | S _ =>
          if should_retry o then
            let '(final, log, t2) := attempts n' w t1 in
            (final, (w, o) :: log, t2)
          else (Some o, [(w, o)], t1)
      end
  end.

(** Modelled from the spec: state DECRYPTING, absent from the sources. *)
Definition incoming_data (cfg : Config) (rd : RequestDescriptor) (body : bytes) :
    string + Data :=
  if rd_decrypt rd then
    match envelope_decrypt body (correlation_id rd) (own_private_key cfg) with
    | inl message => inl message
    | inr plain => inr (deserialize plain)
    end
  else inr (deserialize body).

(** Modelled from the spec: state DONE and the exit to FAILED after the
    last attempt, absent from the sources. *)
Definition settle (cfg : Config) (rd : RequestDescriptor)
    (final : option TransportOutcome) : ResponseResult :=
  match final with
  | None => RequestFailed None "no attempt was made"
  | Some (TransportFailure message) => RequestFailed None message
  | Some (HttpResponse status body) =>
      if is_success status then
        match incoming_data cfg rd body with
        | inl message => EncryptFailed message
        | inr data => Success status data
        end
      else if is_auth_failure status then AuthError status
      else RequestFailed (Some status) (failure_message status body)
  end.

(** Modelled from the spec: one logical call, the state machine of section
    4.4 (BUILDING, ENCRYPTING, SENDING, RETRYING, DECRYPTING, DONE), the
    client's [request] being absent from the sources.  The answer carries
    the attempts observed at the transport. *)
Definition request (cfg : Config) (rd : RequestDescriptor) (e : Entropy)
    (t : TransportState) :
    ResponseResult * list (WireRequest * TransportOutcome) * TransportState :=
  match target_url cfg rd with
  | inl message => (UrlBuildFailed message, [], t)
  | inr url =>
      match outgoing_body cfg rd e with
      | inl message => (EncryptFailed message, [], t)
      | inr body =>
          let '(final, log, t') :=
            attempts (retry_attempts cfg) (wire_request cfg rd url body) t in
          (settle cfg rd final, log, t')
      end
  end.

End Dispatch.

End Dispatcher.


(** *** A scripted transport

    Collaborators for running the dispatcher on concrete calls: the
    transport answers the outcomes of a script in order, and a transport
    failure once the script is over; bodies travel as they are; the URL is
    the plain concatenation; no cipher is configured; the retryable status
    codes are those from 500 on. *)
Definition scripted : Dispatcher.Collaborators := {|
  Dispatcher.PublicKey := unit;
  Dispatcher.PrivateKey := unit;
  Dispatcher.ParamValue := str;
  Dispatcher.Data := list Byte.byte;
  Dispatcher.Entropy := unit;
  Dispatcher.TransportState := list Dispatcher.TransportOutcome;
  Dispatcher.transport_send := fun script _ =>
    match script with
    | o :: rest => (o, rest)
    | [] => (Dispatcher.TransportFailure "script exhausted", [])
    end;
  Dispatcher.serialize := fun d => d;
  Dispatcher.deserialize := fun b => b;
  Dispatcher.url_build := fun base prefix endpoint _ _ =>
    inr (base ++ prefix ++ endpoint);
  Dispatcher.envelope_encrypt := fun _ _ _ _ => inl "no cipher"%string;
  Dispatcher.envelope_decrypt := fun _ _ _ => inl "no cipher"%string;
  Dispatcher.retryable_status := fun status => 500 <=? status;
  Dispatcher.auth_header := $"X-API-Key";
  Dispatcher.failure_message := fun _ _ => "request failed"%string
|}.

(** A client with [n] attempts and no key, and a plain GET of [users]. *)
Definition sample_config (n : nat) : Dispatcher.Config (C := scripted) := {|
  Dispatcher.base_url := $"https://api.example.com";
  Dispatcher.default_api_prefix := Some $"/api/v1/";
  Dispatcher.api_key := $"key";
  Dispatcher.timeout := 30;
  Dispatcher.retry_attempts := n;
  Dispatcher.peer_public_key := None;
  Dispatcher.own_private_key := None
|}.

Definition sample_call : Dispatcher.RequestDescriptor (C := scripted) := {|
  Dispatcher.rd_endpoint := $"users";
  Dispatcher.rd_method := Dispatcher.GET;
  Dispatcher.rd_path_params := [];
  Dispatcher.rd_query_params := [];
  Dispatcher.rd_body := None;
  Dispatcher.rd_headers := [];
  Dispatcher.rd_encrypt := false;
  Dispatcher.rd_decrypt := false;
  Dispatcher.rd_api_prefix := None
|}.

(** The request that call puts on the wire. *)
Definition sample_wire : Dispatcher.WireRequest := {|
  Dispatcher.w_method := Dispatcher.GET;
  Dispatcher.w_url := $"https://api.example.com/api/v1/users";
  Dispatcher.w_headers := [($"X-API-Key", $"key")];
  Dispatcher.w_body := None;
  Dispatcher.w_timeout := 30
|}.

Definition no_data : @Dispatcher.Data scripted := @nil Byte.byte.

(** * Properties *)

(** ** Python strings *)

Section SplitJoin.
Variable sep : ascii.

Lemma split_not_nil (s : str) : PyStr.split sep s <> [].
Proof.
  destruct s as [|c s]; simpl; [discriminate|].
  destruct (Ascii.eqb c sep); [discriminate|].
  destruct (PyStr.split sep s); discriminate.
Qed.

(** A string without the separator is its own single part. *)
Lemma split_without_sep (x : str) :
  Forall (fun c => c <> sep) x -> PyStr.split sep x = [x].
Proof.
  induction 1 as [|c x Hc _ IH]; simpl; [reflexivity|].
  destruct (Ascii.eqb_spec c sep) as [->|_]; [contradiction|].
  now rewrite IH.
Qed.

(** The first separator ends the first part. *)
Lemma split_at_first_sep (x y : str) :
  Forall (fun c => c <> sep) x ->
  PyStr.split sep (x ++ sep :: y) = x :: PyStr.split sep y.
Proof.
  induction 1 as [|c x Hc _ IH]; simpl.
  - now rewrite Ascii.eqb_refl.
  - destruct (Ascii.eqb_spec c sep) as [->|_]; [contradiction|].
    now rewrite IH.
Qed.

End SplitJoin.

(** ** Integer literals *)

(** Reading back the digits [show_uint] wrote. *)
Lemma digits_tail_show (d : Decimal.uint) :
  PyStr.digits_tail (PyStr.show_uint d) = Some d.
Proof.
  induction d; cbn [PyStr.show_uint PyStr.digits_tail]; [reflexivity| ..];
    match goal with
    | |- context [PyStr.digit (PyStr.digit_char ?k)] =>
        let v := eval vm_compute in (PyStr.digit (PyStr.digit_char k)) in
        change (PyStr.digit (PyStr.digit_char k)) with v
    end; cbv iota beta; now rewrite IHd.
Qed.

Lemma digits_show (d : Decimal.uint) :
  d <> Decimal.Nil -> PyStr.digits (PyStr.show_uint d) = Some d.
Proof.
  intros Hd. pose proof (digits_tail_show d) as H.
  destruct d; [contradiction| ..]; exact H.
Qed.

Lemma show_uint_digits (d : Decimal.uint) :
  Forall (fun c => is_Some (PyStr.digit c)) (PyStr.show_uint d).
Proof. induction d; simpl; constructor; eauto. Qed.

Lemma decimal_chars (z : Z) : Forall numeral_char (PyStr.decimal z).
Proof.
  unfold PyStr.decimal.
  destruct (Z.to_int z) as [d|d]; [|constructor; [now right|]];
    eapply Forall_impl; try apply show_uint_digits; intros c Hc; now left.
Qed.

Lemma numeral_char_facts (c : ascii) :
  numeral_char c -> PyStr.int_space c = false /\ c <> dot.
Proof.
  intros [[d Hd]| ->]; [|split; [reflexivity|discriminate]].
  destruct c as [[] [] [] [] [] [] [] []]; vm_compute in Hd; try discriminate;
    split; (reflexivity || discriminate).
Qed.

Lemma decimal_no_dot (z : Z) : Forall (fun c => c <> dot) (PyStr.decimal z).
Proof.
  eapply Forall_impl; [apply decimal_chars|].
  intros c Hc. now apply numeral_char_facts.
Qed.

Lemma scan_numeral_show (d : Decimal.uint) :
  PyStr.scan_numeral (PyStr.show_uint d) = (PyStr.show_uint d, []).
Proof.
  induction d; cbn [PyStr.show_uint PyStr.scan_numeral]; [reflexivity| ..];
    match goal with
    | |- context [PyStr.digit (PyStr.digit_char ?k)] =>
        let v := eval vm_compute in (PyStr.digit (PyStr.digit_char k)) in
        change (PyStr.digit (PyStr.digit_char k)) with v
    end; cbv iota beta; now rewrite IHd.
Qed.

(** [int] on a sign and the digits [show_uint] wrote. *)
Lemma int_show (d : Decimal.uint) :
  d <> Decimal.Nil ->
  PyStr.int (PyStr.show_uint d)
  = (if (PyStr.int_max_str_digits <? Decimal.nb_digits d)%nat
     then Raise ValueErrorLimit else Ok (Z.of_int (Decimal.Pos d)))
  /\ PyStr.int ("-"%char :: PyStr.show_uint d)
     = (if (PyStr.int_max_str_digits <? Decimal.nb_digits d)%nat
        then Raise ValueErrorLimit else Ok (Z.of_int (Decimal.Neg d))).
Proof.
  intros Hd. unfold PyStr.int.
  pose proof (digits_show d Hd) as Hdigits.
  pose proof (show_uint_digits d) as Hall.
  pose proof (scan_numeral_show d) as Hscan.
  split.
  - destruct (PyStr.show_uint d) as [|c s] eqn:E; [discriminate Hdigits|].
    apply Forall_cons in Hall as [Hc _].
    destruct (numeral_char_facts c (or_introl Hc)) as [Hspace _].
    destruct Hc as [k Hk].
    cbn [PyStr.lstrip]. rewrite Hspace. cbn [PyStr.sign].
    destruct (Ascii.eqb_spec c "-") as [->|_]; [discriminate Hk|].
    destruct (Ascii.eqb_spec c "+") as [->|_]; [discriminate Hk|].
    now rewrite Hscan, Hdigits.
  - cbn [PyStr.lstrip]. change (PyStr.int_space "-") with false.
    cbn [PyStr.sign Ascii.eqb Bool.eqb]. now rewrite Hscan, Hdigits.
Qed.

(** [int(str(z)) == z], when [z] has no more digits than [int] reads. *)
Lemma py_int_decimal (z : Z) :
  py_int (PyStr.decimal z)
  = (if (PyStr.int_max_str_digits <? PyStr.int_digits z)%nat
     then Raise ValueErrorLimit else Ok z).
Proof.
  unfold py_int, PyStr.decimal, PyStr.int_digits.
  pose proof (DecimalZ.of_to z) as Hz.
  assert (Hnn : match Z.to_int z with
                | Decimal.Pos d | Decimal.Neg d => d <> Decimal.Nil
                end).
  { destruct z; simpl; try discriminate; apply DecimalPos.Unsigned.to_uint_nonnil. }
  destruct (Z.to_int z) as [d|d]; destruct (int_show d Hnn) as [Hpos Hneg];
    [rewrite Hpos|rewrite Hneg]; now rewrite Hz.
Qed.

Lemma py_int_decimal_inv (z w : Z) : py_int (PyStr.decimal z) = Ok w -> w = z.
Proof.
  rewrite py_int_decimal.
  destruct (_ <? _)%nat; [discriminate|]. now intros [= ->].
Qed.

Lemma sign_cases (s : str) :
  (PyStr.sign s).1 = Decimal.Pos \/ (PyStr.sign s).1 = Decimal.Neg.
Proof.
  destruct s as [|c s]; [now left|]. cbn [PyStr.sign].
  destruct (Ascii.eqb c "-"); [now right|].
  destruct (Ascii.eqb c "+"); now left.
Qed.

(** The value [int] reads has no more digits than the literal. *)
Lemma of_int_digits (d : Decimal.uint) :
  (PyStr.int_digits (Z.of_int (Decimal.Pos d)) <= Nat.max 1 (Decimal.nb_digits d))%nat
  /\ (PyStr.int_digits (Z.of_int (Decimal.Neg d)) <= Nat.max 1 (Decimal.nb_digits d))%nat.
Proof.
  unfold PyStr.int_digits. rewrite !DecimalZ.to_of. cbn [Decimal.norm].
  pose proof (DecimalFacts.nb_digits_nzhead d) as Hhead.
  unfold Decimal.unorm.
  split; destruct (Decimal.nzhead d); cbn [Decimal.nb_digits] in *; lia.
Qed.

Lemma py_int_digits (s : str) (z : Z) :
  py_int s = Ok z -> (PyStr.int_digits z <= PyStr.int_max_str_digits)%nat.
Proof.
  unfold py_int, PyStr.int.
  pose proof (sign_cases (PyStr.lstrip s)) as Hsign.
  destruct (PyStr.sign (PyStr.lstrip s)) as [signed body].
  destruct (PyStr.scan_numeral body) as [run rest].
  destruct (PyStr.digits run) as [d|]; [|discriminate].
  destruct (Nat.ltb_spec PyStr.int_max_str_digits (Decimal.nb_digits d)) as [|Hle];
    [discriminate|].
  destruct (forallb PyStr.int_space rest); [|discriminate].
  intros [= <-]. destruct (of_int_digits d) as [Hpos Hneg].
  assert (1 <= PyStr.int_max_str_digits)%nat by (unfold PyStr.int_max_str_digits; lia).
  cbn [fst] in Hsign. destruct Hsign as [-> | ->]; lia.
Qed.

(** ** The number of digits *)

Lemma usize_nb_digits (d : Decimal.uint) :
  DecimalPos.Unsigned.usize d = N.of_nat (Decimal.nb_digits d).
Proof. induction d; cbn [DecimalPos.Unsigned.usize Decimal.nb_digits]; lia. Qed.

(** The value of a numeral, from its first digit and the rest. *)
Lemma of_uint_head (d : Decimal.uint) :
  match d with
  | Decimal.Nil => True
  | Decimal.D0 d' | Decimal.D1 d' | Decimal.D2 d' | Decimal.D3 d' | Decimal.D4 d'
  | Decimal.D5 d' | Decimal.D6 d' | Decimal.D7 d' | Decimal.D8 d' | Decimal.D9 d' =>
      exists k : N,
        (k <= 9)%N
        /\ (d <> Decimal.D0 d' -> 1 <= k)%N
        /\ Pos.of_uint d
           = (Pos.of_uint d' + k * 10 ^ N.of_nat (Decimal.nb_digits d'))%N
  end.
Proof.
  destruct d as [|d'|d'|d'|d'|d'|d'|d'|d'|d'|d']; [exact I| ..];
    rewrite <- usize_nb_digits;
    [exists 0%N|exists 1%N|exists 2%N|exists 3%N|exists 4%N
    |exists 5%N|exists 6%N|exists 7%N|exists 8%N|exists 9%N];
    (split; [lia|split; [try (intros _; lia); intros H; now contradiction H|]]);
    rewrite !DecimalPos.Unsigned.of_uint_alt; unfold Decimal.rev;
    cbn [Decimal.revapp]; rewrite DecimalPos.Unsigned.of_lu_revapp;
    reflexivity.
Qed.

Lemma of_uint_lt (d : Decimal.uint) :
  (Pos.of_uint d < 10 ^ N.of_nat (Decimal.nb_digits d))%N.
Proof.
  induction d as [|d' IH|d' IH|d' IH|d' IH|d' IH|d' IH|d' IH|d' IH|d' IH|d' IH];
    [reflexivity| ..];
    match goal with
    | |- (Pos.of_uint ?d < _)%N =>
        destruct (of_uint_head d) as (k & Hk & _ & ->)
    end;
    cbn [Decimal.nb_digits]; rewrite Nat2N.inj_succ, N.pow_succ_r';
    generalize dependent (10 ^ N.of_nat (Decimal.nb_digits d'))%N; intros; nia.
Qed.

(** The decimal writing of a positive number starts with a digit that is
    not zero. *)
Lemma to_uint_head (p : positive) :
  match Pos.to_uint p with
  | Decimal.Nil | Decimal.D0 _ => False
  | _ => True
  end.
Proof.
  pose proof (DecimalPos.Unsigned.to_of (Pos.to_uint p)) as Hnorm.
  rewrite DecimalPos.Unsigned.of_to in Hnorm. cbn [N.to_uint] in Hnorm.
  pose proof (DecimalPos.Unsigned.to_uint_nonzero p) as Hnz.
  pose proof (DecimalPos.Unsigned.to_uint_nonnil p) as Hnn.
  destruct (Pos.to_uint p) as [|d'|d'|d'|d'|d'|d'|d'|d'|d'|d']; try exact I;
    [now contradiction Hnn|].
  assert (Hd' : d' <> Decimal.Nil) by (intros ->; now contradiction Hnz).
  pose proof (DecimalFacts.nb_digits_unorm d' Hd') as Hle.
  change (Decimal.unorm (Decimal.D0 d')) with (Decimal.unorm d') in Hnorm.
  rewrite <- Hnorm in Hle. cbn [Decimal.nb_digits] in Hle. lia.
Qed.

Lemma to_uint_digits (p : positive) (n : nat) :
  (Decimal.nb_digits (Pos.to_uint p) <= n)%nat <-> (N.pos p < 10 ^ N.of_nat n)%N.
Proof.
  pose proof (DecimalPos.Unsigned.of_to p) as Hval.
  split.
  - intros Hn. rewrite <- Hval.
    eapply N.lt_le_trans; [apply of_uint_lt|].
    apply N.pow_le_mono_r; lia.
  - intros Hlt. pose proof (to_uint_head p) as Hhead.
    pose proof (of_uint_head (Pos.to_uint p)) as Hsplit.
    destruct (Pos.to_uint p) as [|d'|d'|d'|d'|d'|d'|d'|d'|d'|d'];
      try contradiction;
      destruct Hsplit as (k & _ & Hk & Hsplit);
      specialize (Hk ltac:(discriminate));
      cbn [Decimal.nb_digits];
      destruct (decide (Decimal.nb_digits d' < n)%nat) as [|Hge]; try lia;
      exfalso;
      assert (Hpow : (10 ^ N.of_nat n <= 10 ^ N.of_nat (Decimal.nb_digits d'))%N)
        by (apply N.pow_le_mono_r; lia);
      rewrite Hsplit in Hval;
      generalize dependent (10 ^ N.of_nat (Decimal.nb_digits d'))%N;
      generalize dependent (10 ^ N.of_nat n)%N; intros; nia.
Qed.

(** [z] has at most [n] digits exactly when it lies strictly between
    [-10^n] and [10^n]. *)
Lemma int_digits_le (z : Z) (n : nat) :
  (0 < n)%nat ->
  (PyStr.int_digits z <= n)%nat <-> Z.abs z < 10 ^ Z.of_nat n.
Proof.
  intros Hn. unfold PyStr.int_digits.
  assert (Hpow : 10 ^ Z.of_nat n = Z.of_N (10 ^ N.of_nat n)).
  { now rewrite N2Z.inj_pow, nat_N_Z. }
  destruct z as [|p|p]; cbn [Z.to_int Z.abs].
  - cbn [Decimal.nb_digits]. split; [intros _|lia].
    apply Z.pow_pos_nonneg; lia.
  - rewrite to_uint_digits, Hpow. lia.
  - rewrite to_uint_digits, Hpow. lia.
Qed.

Lemma format_int_fits (z : Z) :
  Z.abs z < digit_limit ->
  PyStr.format_int z = Ok (PyStr.decimal z).
Proof.
  intros Hz. unfold digit_limit in Hz.
  apply int_digits_le in Hz; [|unfold PyStr.int_max_str_digits; lia].
  unfold PyStr.format_int.
  now destruct (Nat.ltb_spec PyStr.int_max_str_digits (PyStr.int_digits z)); [lia|].
Qed.

Lemma format_int_exceeds (z : Z) :
  digit_limit <= Z.abs z ->
  PyStr.format_int z = Raise ValueErrorLimit.
Proof.
  intros Hz. unfold PyStr.format_int.
  destruct (Nat.ltb_spec PyStr.int_max_str_digits (PyStr.int_digits z)) as [|Hle];
    [reflexivity|].
  apply int_digits_le in Hle; [|unfold PyStr.int_max_str_digits; lia].
  unfold digit_limit in Hz. lia.
Qed.

(** Small numbers are far below the limit. *)
Lemma below_digit_limit (z : Z) : z < 10 ^ 18 -> z < digit_limit.
Proof.
  intros Hz. eapply Z.lt_trans; [exact Hz|].
  unfold digit_limit. apply Z.pow_lt_mono_r; [lia|lia|].
  unfold PyStr.int_max_str_digits. lia.
Qed.

Lemma digit_limit_pos : 1 < digit_limit.
Proof. apply below_digit_limit. reflexivity. Qed.

(** The literal of [n] nines reads as [10 ^ n - 1]. *)
Lemma show_uint_nines (n : nat) :
  PyStr.show_uint (Nat.iter n Decimal.D9 Decimal.Nil) = repeat "9"%char n.
Proof.
  induction n as [|n IH]; [reflexivity|].
  rewrite Nat.iter_succ. cbn [PyStr.show_uint repeat]. now rewrite IH.
Qed.

Lemma nb_digits_nines (n : nat) :
  Decimal.nb_digits (Nat.iter n Decimal.D9 Decimal.Nil) = n.
Proof.
  induction n as [|n IH]; [reflexivity|].
  rewrite Nat.iter_succ. cbn [Decimal.nb_digits]. now rewrite IH.
Qed.

Lemma of_uint_nines (n : nat) :
  (Pos.of_uint (Nat.iter n Decimal.D9 Decimal.Nil) + 1 = 10 ^ N.of_nat n)%N.
Proof.
  induction n as [|n IH]; [reflexivity|].
  rewrite Nat.iter_succ, DecimalPos.Unsigned.of_uint_alt. unfold Decimal.rev.
  cbn [Decimal.revapp]. rewrite DecimalPos.Unsigned.of_lu_revapp.
  fold (Decimal.rev (Nat.iter n Decimal.D9 Decimal.Nil)).
  rewrite <- DecimalPos.Unsigned.of_uint_alt, usize_nb_digits, nb_digits_nines.
  change (DecimalPos.Unsigned.of_lu (Decimal.D9 Decimal.Nil)) with 9%N.
  rewrite Nat2N.inj_succ, N.pow_succ_r'. lia.
Qed.

Lemma py_int_nines (n : nat) :
  (0 < n <= PyStr.int_max_str_digits)%nat ->
  py_int (repeat "9"%char n) = Ok (10 ^ Z.of_nat n - 1).
Proof.
  intros Hn. unfold py_int. rewrite <- show_uint_nines.
  assert (Hnn : Nat.iter n Decimal.D9 Decimal.Nil <> Decimal.Nil)
    by (destruct n; [lia|discriminate]).
  destruct (int_show _ Hnn) as [-> _]. rewrite nb_digits_nines.
  destruct (Nat.ltb_spec PyStr.int_max_str_digits n); [lia|].
  f_equal. cbn [Z.of_int]. unfold Z.of_uint.
  pose proof (of_uint_nines n) as Hval.
  apply (f_equal Z.of_N) in Hval.
  rewrite N2Z.inj_add, N2Z.inj_pow, nat_N_Z in Hval.
  change (Z.of_N 1) with 1 in Hval. change (Z.of_N 10) with 10 in Hval. lia.
Qed.

(** So [str] writes every number [int] has read. *)
Lemma py_int_format_int (s : str) (z : Z) :
  py_int s = Ok z -> PyStr.format_int z = Ok (PyStr.decimal z).
Proof.
  intros Hs. apply py_int_digits in Hs. unfold PyStr.format_int.
  now destruct (Nat.ltb_spec PyStr.int_max_str_digits (PyStr.int_digits z)); [lia|].
Qed.

Lemma py_int_lt (s : str) (z : Z) :
  py_int s = Ok z -> Z.abs z < digit_limit.
Proof.
  intros Hs. apply py_int_digits in Hs.
  apply int_digits_le; [unfold PyStr.int_max_str_digits; lia|exact Hs].
Qed.

Lemma format_int_decimal (z : Z) (text : str) :
  PyStr.format_int z = Ok text ->
  text = PyStr.decimal z /\ py_int text = Ok z.
Proof.
  unfold PyStr.format_int.
  destruct (PyStr.int_max_str_digits <? PyStr.int_digits z)%nat eqn:E;
    [discriminate|].
  intros [= <-]. split; [reflexivity|]. now rewrite py_int_decimal, E.
Qed.

(** ** C8: increment_version *)

(** On three parts that [int] reads, [increment_version] goes by whether the
    f-string can write the new patch number. *)
Lemma increment_version_parsed (s p0 p1 p2 : str) (a b c : Z) :
  PyStr.split dot s = [p0; p1; p2] ->
  py_int p0 = Ok a -> py_int p1 = Ok b -> py_int p2 = Ok c ->
  increment_version s
  = (patch_text ← PyStr.format_int (c + 1);
     Ok (PyStr.decimal a ++ [dot] ++ PyStr.decimal b ++ [dot] ++ patch_text)).
Proof.
  intros Hs H0 H1 H2. unfold increment_version. rewrite Hs.
  unfold mbind, result_bind. rewrite H0, H1, H2.
  now rewrite (py_int_format_int _ _ H0), (py_int_format_int _ _ H1).
Qed.

(** C8, corrected.  For a version string whose split at the dots has
    exactly three parts, each an integer literal that [int] reads as [a],
    [b] and [c], [increment_version] returns [a], [b] and [c + 1] written
    in decimal and joined by dots as long as [c + 1] has no more than
    [int_max_str_digits] digits, that is, is below [digit_limit], and
    raises [ValueError] when it has more, which it has when [c] is that
    many nines; when the split does not have
    exactly three parts it returns its argument unchanged; and on the
    decimal writing of three integers within the limit it returns the same
    text with the patch number one higher. *)
Theorem increment_version_spec :
  (forall (s p0 p1 p2 : str) (a b c : Z),
      PyStr.split dot s = [p0; p1; p2] ->
      py_int p0 = Ok a -> py_int p1 = Ok b -> py_int p2 = Ok c ->
      (c + 1 < digit_limit ->
       increment_version s =
         Ok (PyStr.decimal a ++ [dot] ++ PyStr.decimal b ++ [dot]
             ++ PyStr.decimal (c + 1)))
      /\ (digit_limit <= c + 1 ->
          increment_version s = Raise ValueErrorLimit))
  /\ (forall s : str,
        length (PyStr.split dot s) <> 3%nat -> increment_version s = Ok s)
  /\ (forall a b c : Z,
        Z.abs a < digit_limit ->
        Z.abs b < digit_limit ->
        - digit_limit < c ->
        c + 1 < digit_limit ->
        increment_version
          (PyStr.decimal a ++ [dot] ++ PyStr.decimal b ++ [dot]
           ++ PyStr.decimal c) =
        Ok (PyStr.decimal a ++ [dot] ++ PyStr.decimal b ++ [dot]
            ++ PyStr.decimal (c + 1))).
Proof.
  assert (Hparsed : forall (s p0 p1 p2 : str) (a b c : Z),
      PyStr.split dot s = [p0; p1; p2] ->
      py_int p0 = Ok a -> py_int p1 = Ok b -> py_int p2 = Ok c ->
      (c + 1 < digit_limit ->
       increment_version s =
         Ok (PyStr.decimal a ++ [dot] ++ PyStr.decimal b ++ [dot]
             ++ PyStr.decimal (c + 1)))
      /\ (digit_limit <= c + 1 ->
          increment_version s = Raise ValueErrorLimit)).
  { intros s p0 p1 p2 a b c Hs H0 H1 H2.
    rewrite (increment_version_parsed _ _ _ _ _ _ _ Hs H0 H1 H2).
    pose proof (py_int_lt _ _ H2) as Hc.
    split; intros Hlimit.
    - rewrite format_int_fits; [reflexivity|lia].
    - rewrite format_int_exceeds; [reflexivity|lia]. }
  split; [exact Hparsed|split].
  - intros s Hlen. unfold increment_version.
    destruct (PyStr.split dot s) as [|p0 [|p1 [|p2 [|p3 rest]]]];
      try reflexivity.
    now contradiction Hlen.
  - intros a b c Ha Hb Hc Hc1.
    assert (Hint : forall z, Z.abs z < digit_limit ->
                             py_int (PyStr.decimal z) = Ok z).
    { intros z Hz. apply format_int_fits in Hz.
      exact (proj2 (format_int_decimal _ _ Hz)). }
    apply (Hparsed _ (PyStr.decimal a) (PyStr.decimal b) (PyStr.decimal c));
      try (apply Hint; lia); try exact Hc1.
    cbn [app].
    rewrite split_at_first_sep by apply decimal_no_dot.
    rewrite split_at_first_sep by apply decimal_no_dot.
    now rewrite split_without_sep by apply decimal_no_dot.
Qed.

(** The parts of [increment_version_spec] on concrete versions. *)
Lemma increment_version_spec_witness :
  increment_version $"1.0.9" = Ok $"1.0.10"
  /\ increment_version $"1.0" = Ok $"1.0"
  /\ increment_version $"3.4.5" = Ok $"3.4.6".
Proof.
  destruct increment_version_spec as [Hparsed [Hother Hcanon]].
  split; [|split].
  - refine (proj1 (Hparsed $"1.0.9" $"1" $"0" $"9" 1 0 9 eq_refl eq_refl eq_refl eq_refl) _).
    apply below_digit_limit. reflexivity.
  - apply Hother. vm_compute. lia.
  - pose proof digit_limit_pos.
    refine (Hcanon 3 4 5 _ _ _ _); try (apply below_digit_limit; reflexivity); lia.
Defined.

(** The claim without the limit fails on a patch number of
    [int_max_str_digits] nines: the three parts are integer literals, and
    the f-string raises [ValueError] on the new patch number,
    [digit_limit]. *)
Lemma increment_version_raises_at_limit :
  PyStr.split dot nines_version
  = [$"1"; $"0"; repeat "9"%char PyStr.int_max_str_digits]
  /\ py_int $"1" = Ok 1
  /\ py_int $"0" = Ok 0
  /\ py_int (repeat "9"%char PyStr.int_max_str_digits) = Ok (digit_limit - 1)
  /\ increment_version nines_version = Raise ValueErrorLimit.
Proof.
  assert (Hs : PyStr.split dot nines_version
               = [$"1"; $"0"; repeat "9"%char PyStr.int_max_str_digits]).
  { change nines_version
      with ($"1" ++ dot :: $"0" ++ dot :: repeat "9"%char PyStr.int_max_str_digits).
    rewrite split_at_first_sep by (repeat constructor; discriminate).
    rewrite split_at_first_sep by (repeat constructor; discriminate).
    rewrite split_without_sep; [reflexivity|].
    generalize PyStr.int_max_str_digits. intros n.
    induction n; cbn [repeat]; constructor; (discriminate || assumption). }
  assert (H2 : py_int (repeat "9"%char PyStr.int_max_str_digits) = Ok (digit_limit - 1)).
  { apply py_int_nines. unfold PyStr.int_max_str_digits. lia. }
  split; [exact Hs|split; [reflexivity|split; [reflexivity|split; [exact H2|]]]].
  rewrite (increment_version_parsed _ _ _ _ 1 0 _ Hs eq_refl eq_refl H2).
  pose proof digit_limit_pos.
  rewrite format_int_exceeds; [reflexivity|lia].
Qed.

Example increment_version_100 : increment_version $"1.0.0" = Ok $"1.0.1".
Proof. reflexivity. Qed.

Example increment_version_carry : increment_version $"2.13.99" = Ok $"2.13.100".
Proof. reflexivity. Qed.

Example increment_version_two_parts : increment_version $"1.0" = Ok $"1.0".
Proof. reflexivity. Qed.

Example increment_version_unknown : increment_version $"unknown" = Ok $"unknown".
Proof. reflexivity. Qed.

Example increment_version_leading_zero : increment_version $" 01.2_0.-3" = Ok $"1.20.-2".
Proof. reflexivity. Qed.

Example increment_version_not_int : increment_version $"1.0.0rc1" = Raise (ValueError $"0rc1").
Proof. reflexivity. Qed.

(** A literal of too many digits is refused before what follows it is
    looked at. *)
Example py_int_limit_first :
  py_int (repeat "0"%char (S PyStr.int_max_str_digits) ++ $"x") = Raise ValueErrorLimit.
Proof. vm_compute. reflexivity. Qed.

(** ** C9: update_version_in_files *)

Section SplitJoinInverse.
Variable sep : ascii.

Lemma split_parts_without_sep (s : str) :
  Forall (Forall (fun c => c <> sep)) (PyStr.split sep s).
Proof.
  induction s as [|c s IH]; simpl; [repeat constructor|].
  destruct (Ascii.eqb_spec c sep) as [->|Hc]; [constructor; [constructor|exact IH]|].
  destruct (PyStr.split sep s) as [|part parts]; [repeat constructor; exact Hc|].
  apply Forall_cons in IH as [Hp Hps].
  constructor; [constructor; assumption|assumption].
Qed.

Lemma split_join (parts : list str) :
  parts <> [] ->
  Forall (Forall (fun c => c <> sep)) parts ->
  PyStr.split sep (PyStr.join [sep] parts) = parts.
Proof.
  induction parts as [|p rest IH]; [contradiction|].
  intros _ Hall. apply Forall_cons in Hall as [Hp Hrest].
  destruct rest as [|q rest].
  - simpl. now apply split_without_sep.
  - change (PyStr.join [sep] (p :: q :: rest))
      with (p ++ sep :: PyStr.join [sep] (q :: rest)).
    rewrite split_at_first_sep by assumption.
    now rewrite IH.
Qed.


End SplitJoinInverse.

Lemma read_newlines_without_cr (raw : str) :
  Forall (fun c => c <> CR) raw -> read_newlines raw = raw.
Proof.
  induction 1 as [|c raw Hc _ IH]; simpl; [reflexivity|].
  destruct (Ascii.eqb_spec c CR) as [->|_]; [contradiction|].
  now rewrite IH.
Qed.

Lemma write_newlines_posix (text : str) : write_newlines Posix text = text.
Proof.
  induction text as [|c text IH]; simpl; [reflexivity|].
  rewrite IH. destruct (Ascii.eqb_spec c LF) as [->|_]; reflexivity.
Qed.

Lemma first_line_with_lt (pre : str) (lines : list str) (i : nat) :
  first_line_with pre lines = Some i -> (i < length lines)%nat.
Proof.
  revert i. induction lines as [|line rest IH]; intros i; simpl; [discriminate|].
  destruct (PyStr.startswith line pre).
  - intros [= <-]. lia.
  - destruct (first_line_with pre rest) as [k|]; [|discriminate].
    intros [= <-]. specialize (IH k eq_refl). lia.
Qed.

Lemma replace_first_line_kept (pre new : str) (lines : list str) :
  kept_but_first pre new lines (replace_first_line pre new lines).
Proof.
  unfold kept_but_first, replace_first_line.
  destruct (first_line_with pre lines) as [i|] eqn:Hi.
  - split; [apply length_insert|].
    intros j. destruct (decide (Some i = Some j)) as [[= <-]|Hne].
    + apply list_lookup_insert_eq. eapply first_line_with_lt, Hi.
    + apply list_lookup_insert_ne. congruence.
  - split; [reflexivity|]. intros j. now destruct (decide (None = Some j)).
Qed.

Lemma replace_first_line_not_nil (pre new : str) (lines : list str) :
  lines <> [] -> replace_first_line pre new lines <> [].
Proof.
  intros Hne Hnil.
  destruct (replace_first_line_kept pre new lines) as [Hlen _].
  rewrite Hnil in Hlen. destruct lines; [contradiction|discriminate].
Qed.

Lemma replace_first_line_without (sep : ascii) (pre new : str) (lines : list str) :
  Forall (fun c => c <> sep) new ->
  Forall (Forall (fun c => c <> sep)) lines ->
  Forall (Forall (fun c => c <> sep)) (replace_first_line pre new lines).
Proof.
  intros Hnew Hall. unfold replace_first_line.
  destruct (first_line_with pre lines) as [i|]; [|exact Hall].
  apply Forall_insert; assumption.
Qed.

Lemma rewrite_file_ok (os : platform) (path : string) (pre new : str)
    (fs : gmap string str) (raw : str) :
  fs !! path = Some raw ->
  rewrite_file os path pre new fs =
    Ok (<[path := write_newlines os
                    (PyStr.join [LF] (replace_first_line pre new (text_lines raw)))]> fs).
Proof.
  intros Hraw. unfold rewrite_file, read_text. now rewrite Hraw.
Qed.

Lemma literal_lines_without (c : ascii) (v : str) :
  Forall (fun x => x <> c) v -> c <> dq ->
  Forall (fun x => x <> c) $"version = " ->
  Forall (fun x => x <> c) $"__version__ = " ->
  Forall (fun x => x <> c) (version_line v) /\
  Forall (fun x => x <> c) (dunder_version_line v).
Proof.
  intros Hv Hq H1 H2. unfold version_line, dunder_version_line.
  rewrite !Forall_app. repeat split; try assumption; repeat constructor; congruence.
Qed.

Lemma version_lines_without_lf (v : str) :
  Forall (fun x => x <> LF) v ->
  Forall (fun x => x <> LF) (version_line v) /\
  Forall (fun x => x <> LF) (dunder_version_line v).
Proof.
  intros Hv. apply literal_lines_without; [assumption|discriminate| |];
    vm_compute; repeat constructor; discriminate.
Qed.

(** What one rewritten file holds afterwards, in terms of the lines read. *)
Lemma rewritten_lines (os : platform) (pre new raw : str) :
  exists new_lines : list str,
    write_newlines os (PyStr.join [LF] (replace_first_line pre new (text_lines raw)))
      = write_newlines os (PyStr.join [LF] new_lines)
    /\ kept_but_first pre new (text_lines raw) new_lines
    /\ (Forall (fun c => c <> LF) new ->
        PyStr.split LF (PyStr.join [LF] new_lines) = new_lines)
    /\ (os = Posix -> Forall (fun c => c <> CR) raw ->
        write_newlines os (PyStr.join [LF] new_lines) = PyStr.join [LF] new_lines
        /\ text_lines raw = PyStr.split LF raw).
Proof.
  exists (replace_first_line pre new (text_lines raw)).
  split; [reflexivity|split; [apply replace_first_line_kept|split]].
  - intros Hnew. apply split_join.
    + apply replace_first_line_not_nil, split_not_nil.
    + apply replace_first_line_without; [assumption|apply split_parts_without_sep].
  - intros -> Hcr. split; [apply write_newlines_posix|].
    unfold text_lines. now rewrite read_newlines_without_cr.
Qed.

(** C9 (as amended).  When [pyproject.toml] exists, [update_version_in_files]
    succeeds and touches no file but [pyproject.toml] and
    [inter_service_sdk/__init__.py] (which it does not create).  Each of the
    two is left holding the lines [new_lines] joined by newlines and written
    with the platform's line separator, where [new_lines] are the lines of
    the text as read (carriage returns read as newlines) with only the first
    line that starts with ["version"] (["__version__"]) replaced.  If the
    new version has no newline, [new_lines] are exactly the lines of the
    text written; and where the separator is the line feed and the file had
    no carriage return, the characters written are the old lines themselves,
    the replaced one apart. *)
Theorem update_version_in_files_frame (os : platform) (new_version : str)
    (fs : gmap string str) (raw0 : str) :
  fs !! pyproject = Some raw0 ->
  exists fs' : gmap string str,
    update_version_in_files os new_version fs = Ok fs'
    /\ (forall path : string,
          path <> pyproject -> path <> init_file -> fs' !! path = fs !! path)
    /\ (fs !! init_file = None -> fs' !! init_file = None)
    /\ (forall (path : string) (pre new raw : str),
          (path, pre, new) ∈ targets new_version ->
          fs !! path = Some raw ->
          exists new_lines : list str,
            fs' !! path = Some (write_newlines os (PyStr.join [LF] new_lines))
            /\ kept_but_first pre new (text_lines raw) new_lines
            /\ (Forall (fun c => c <> LF) new_version ->
                PyStr.split LF (PyStr.join [LF] new_lines) = new_lines)
            /\ (os = Posix -> Forall (fun c => c <> CR) raw ->
                write_newlines os (PyStr.join [LF] new_lines)
                  = PyStr.join [LF] new_lines
                /\ text_lines raw = PyStr.split LF raw)).
Proof.
  intros Hraw0.
  assert (Hpaths : pyproject <> init_file) by discriminate.
  unfold update_version_in_files.
  rewrite (rewrite_file_ok _ _ _ _ _ _ Hraw0).
  cbn [mbind result_bind]. unfold mbind, result_bind.
  rewrite lookup_insert_ne by assumption.
  pose proof (rewritten_lines os $"version" (version_line new_version) raw0)
    as (lines0 & Heq0 & Hkept0 & Hsplit0 & Hposix0).
  destruct (fs !! init_file) as [raw1|] eqn:Hraw1.
  - rewrite (rewrite_file_ok _ _ _ _ _ raw1)
      by (now rewrite lookup_insert_ne by assumption).
    pose proof (rewritten_lines os $"__version__" (dunder_version_line new_version) raw1)
      as (lines1 & Heq1 & Hkept1 & Hsplit1 & Hposix1).
    eexists; split; [reflexivity|split; [|split; [discriminate|]]].
    + intros path Hp Hi. rewrite !lookup_insert_ne by congruence. reflexivity.
    + intros path pre new raw Hin Hraw.
      unfold targets in Hin. rewrite !elem_of_cons, elem_of_nil in Hin.
      destruct Hin as [[= -> -> ->]|[[= -> -> ->]|[]]].
      * replace raw with raw0 by congruence.
        exists lines0. rewrite lookup_insert_ne, lookup_insert_eq by congruence.
        rewrite Heq0. split; [reflexivity|split; [assumption|split; [|assumption]]].
        intros Hv. apply Hsplit0. now apply version_lines_without_lf.
      * replace raw with raw1 by congruence.
        exists lines1. rewrite lookup_insert_eq.
        rewrite Heq1. split; [reflexivity|split; [assumption|split; [|assumption]]].
        intros Hv. apply Hsplit1. now apply version_lines_without_lf.
  - eexists; split; [reflexivity|split; [|split]].
    + intros path Hp Hi. now rewrite lookup_insert_ne by congruence.
    + intros _. now rewrite lookup_insert_ne by assumption.
    + intros path pre new raw Hin Hraw.
      unfold targets in Hin. rewrite !elem_of_cons, elem_of_nil in Hin.
      destruct Hin as [[= -> -> ->]|[[= -> -> ->]|[]]]; [|congruence].
      replace raw with raw0 by congruence.
      exists lines0. rewrite lookup_insert_eq.
      rewrite Heq0. split; [reflexivity|split; [assumption|split; [|assumption]]].
      intros Hv. apply Hsplit0. now apply version_lines_without_lf.
Qed.

(** [update_version_in_files_frame] on a two-line project file with line
    feeds. *)
Lemma update_version_in_files_frame_witness :
  lf_project !! pyproject = Some ($"[project]" ++ [LF] ++ version_line $"1.0.0" ++ [LF])
  /\ exists (fs' : gmap string str) (new_lines : list str),
       update_version_in_files Posix $"1.0.1" lf_project = Ok fs'
       /\ fs' !! pyproject = Some (PyStr.join [LF] new_lines)
       /\ new_lines !! 0%nat = Some $"[project]"
       /\ new_lines !! 1%nat = Some (version_line $"1.0.1")
       /\ new_lines !! 2%nat = Some [].
Proof.
  split; [reflexivity|].
  destruct (update_version_in_files_frame Posix $"1.0.1" lf_project _ eq_refl)
    as (fs' & Hrun & _ & _ & Htargets).
  destruct (Htargets pyproject $"version" (version_line $"1.0.1") _
              ltac:(left) eq_refl)
    as (new_lines & Hfile & [_ Hkept] & _ & Hposix).
  destruct Hposix as [Hbytes _]; [reflexivity|vm_compute; repeat constructor; discriminate|].
  exists fs', new_lines. rewrite Hfile, Hbytes, !Hkept.
  repeat split; exact Hrun.
Defined.

(** C9 as stated fails: the lines of the stored characters are not all
    kept.  A file with carriage return and line feed at its line ends comes
    back with line feeds alone, so its first line, which does not start with
    ["version"], has lost its last character. *)
Lemma update_version_in_files_rewrites_crlf :
  ~ (forall (os : platform) (new_version : str) (fs fs' : gmap string str)
            (path : string) (pre new raw raw' : str),
        update_version_in_files os new_version fs = Ok fs' ->
        (path, pre, new) ∈ targets new_version ->
        fs !! path = Some raw -> fs' !! path = Some raw' ->
        other_lines_kept pre raw raw').
Proof.
  intros Hclaim.
  assert (Hrun : update_version_in_files Posix $"1.0.1" crlf_project
                 = Ok {[ pyproject := $"[project]" ++ [LF] ++ version_line $"1.0.1" ++ [LF] ]})
    by (vm_compute; reflexivity).
  specialize (Hclaim _ _ _ _ pyproject $"version" _ _ _ Hrun ltac:(left) eq_refl eq_refl
                0%nat ($"[project]" ++ [CR]) eq_refl).
  vm_compute in Hclaim.
  specialize (Hclaim ltac:(discriminate)). discriminate Hclaim.
Qed.

(** ** C10: the dependency pin *)

Lemma startswith_app (pre rest : str) : PyStr.startswith (pre ++ rest) pre = true.
Proof.
  induction pre as [|p pre IH]; simpl; [now destruct rest|].
  now rewrite Ascii.eqb_refl, IH.
Qed.

Lemma startswith_true (s pre : str) :
  PyStr.startswith s pre = true -> exists rest, s = pre ++ rest.
Proof.
  revert s. induction pre as [|p pre IH]; intros s H.
  - now exists s.
  - destruct s as [|c s]; simpl in H; [discriminate|].
    destruct (Ascii.eqb_spec c p) as [->|_]; [|discriminate].
    destruct (IH s H) as [rest ->]. now exists rest.
Qed.

(** A string is its longest run of digits and dots followed by something
    that starts with neither. *)
Lemma take_version_split (s : str) :
  exists rest : str,
    s = take_version s ++ rest
    /\ Forall (fun c => version_char c = true) (take_version s)
    /\ starts_version rest = false.
Proof.
  induction s as [|c s (rest & Hs & Hall & Hrest)]; simpl.
  - now exists [].
  - destruct (version_char c) eqn:Hc.
    + exists rest. simpl. rewrite <- Hs. repeat split; [constructor|]; assumption.
    + exists (c :: s). simpl. repeat split; [constructor|assumption].
Qed.

Lemma take_version_run (run rest : str) :
  Forall (fun c => version_char c = true) run ->
  starts_version rest = false ->
  take_version (run ++ rest) = run.
Proof.
  intros Hrun Hrest. induction Hrun as [|c run Hc _ IH]; simpl.
  - destruct rest as [|c rest]; [reflexivity|]. simpl in *. now rewrite Hrest.
  - now rewrite Hc, IH.
Qed.

Lemma match_pin_pinned (s run rest : str) :
  pinned s run rest -> match_pin s = Some (length pin_literal + length run)%nat.
Proof.
  intros (-> & Hne & Hrun & Hrest). unfold match_pin.
  rewrite startswith_app, drop_app_length, take_version_run by assumption.
  destruct run; [contradiction|reflexivity].
Qed.

Lemma match_pin_Some (s : str) (n : nat) :
  match_pin s = Some n -> exists run rest, pinned s run rest.
Proof.
  unfold match_pin.
  destruct (PyStr.startswith s pin_literal) eqn:Hpre; [|discriminate].
  destruct (startswith_true _ _ Hpre) as [tail ->].
  rewrite drop_app_length.
  destruct (take_version_split tail) as (rest & Htail & Hall & Hrest).
  destruct (take_version tail) as [|c run] eqn:Hrun; [discriminate|].
  intros _. exists (c :: run), rest. repeat split; try assumption; [|discriminate].
  now rewrite <- Htail.
Qed.

(** Only the first twenty characters decide whether the pattern matches. *)
Lemma match_pin_None_take (s s' : str) :
  take (S (length pin_literal)) s' = take (S (length pin_literal)) s ->
  match_pin s = None -> match_pin s' = None.
Proof.
  intros Htake Hnone.
  destruct (match_pin s') as [n|] eqn:Hs'; [|reflexivity].
  destruct (match_pin_Some _ _ Hs') as (run & rest & -> & Hne & Hrun & Hrest).
  destruct run as [|d run]; [contradiction|].
  apply Forall_cons in Hrun as [Hd _].
  assert (Hs : exists tail, s = pin_literal ++ d :: tail).
  { rewrite take_app_ge in Htake by lia.
    replace (S (length pin_literal) - length pin_literal)%nat with 1%nat in Htake by lia.
    cbn [app take] in Htake.
    exists (drop (S (length pin_literal)) s).
    rewrite <- (take_drop (S (length pin_literal)) s) at 1.
    rewrite <- Htake. now rewrite <- app_assoc. }
  destruct Hs as [tail ->].
  destruct (take_version_split tail) as (rest' & Htail & Hall & Hrest').
  rewrite (match_pin_pinned _ (d :: take_version tail) rest') in Hnone; [discriminate|].
  repeat split; try assumption; [|discriminate|constructor; assumption].
  cbn [app]. now rewrite <- Htail.
Qed.

Section Substitution.
Variable repl : str.

Lemma sub_pin_skip (passed s : str) :
  sub_pin repl (length passed) (passed ++ s) = sub_pin repl 0 s.
Proof.
  induction passed as [|c passed IH]; [reflexivity|].
  destruct s; simpl; exact IH.
Qed.

Lemma sub_pin_keep (c : ascii) (s : str) :
  match_pin (c :: s) = None ->
  sub_pin repl 0 (c :: s) = c :: sub_pin repl 0 s.
Proof. intros H. cbn [sub_pin]. now rewrite H. Qed.

Lemma sub_pin_replace (s run rest : str) :
  pinned s run rest -> sub_pin repl 0 s = repl ++ sub_pin repl 0 rest.
Proof.
  intros Hp. pose proof (match_pin_pinned _ _ _ Hp) as Hm.
  destruct Hp as (-> & _).
  destruct (pin_literal ++ run ++ rest) as [|c s] eqn:Hs; [discriminate Hs|].
  cbn [sub_pin]. rewrite Hm. f_equal.
  assert (Hs' : s = tl (pin_literal ++ run) ++ rest).
  { rewrite app_assoc in Hs.
    destruct (pin_literal ++ run) as [|c' s'] eqn:E; [discriminate E|].
    simpl in Hs. injection Hs as _ <-. reflexivity. }
  rewrite Hs'.
  replace (length pin_literal + length run - 1)%nat
    with (length (tl (pin_literal ++ run))); [apply sub_pin_skip|].
  rewrite <- length_app. destruct (pin_literal ++ run); simpl; lia.
Qed.

End Substitution.

(** The substitution leaves the first nineteen characters as they are: a
    replacement starts with the literal it replaces. *)
Lemma substitute_pin_take (v s : str) (n : nat) :
  (n <= length pin_literal)%nat ->
  take n (substitute_pin v s) = take n s.
Proof.
  revert n. induction s as [|c s IH]; intros n Hn; [reflexivity|].
  unfold substitute_pin in *.
  destruct (match_pin (c :: s)) as [m|] eqn:Hm.
  - destruct (match_pin_Some _ _ Hm) as (run & rest & Hp).
    rewrite (sub_pin_replace _ _ _ _ Hp).
    destruct Hp as (-> & _).
    rewrite <- app_assoc. now rewrite !take_app_le by assumption.
  - rewrite sub_pin_keep by assumption.
    destruct n as [|n]; [reflexivity|].
    cbn [take]. f_equal. apply IH. lia.
Qed.

Lemma substitute_pin_starts_version (v s : str) :
  starts_version (substitute_pin v s) = starts_version s.
Proof.
  pose proof (substitute_pin_take v s 1 ltac:(vm_compute; lia)) as H.
  destruct (substitute_pin v s), s; simpl in *; congruence.
Qed.

(** Where the pattern did not match before the substitution it does not
    match after it. *)
Lemma substitute_pin_no_new_match (v : str) (c : ascii) (s : str) :
  match_pin (c :: s) = None -> match_pin (c :: substitute_pin v s) = None.
Proof.
  apply match_pin_None_take. cbn [take]. f_equal.
  now apply substitute_pin_take.
Qed.

(** The literal alone, followed by no digit or dot, is kept. *)
Lemma substitute_pin_bare_literal (v s : str) :
  starts_version s = false ->
  substitute_pin v (pin_literal ++ s) = pin_literal ++ substitute_pin v s.
Proof.
  intros Hs.
  assert (H0 : match_pin (pin_literal ++ s) = None).
  { unfold match_pin. rewrite startswith_app, drop_app_length.
    destruct s as [|d s]; [reflexivity|]. simpl in *. now rewrite Hs. }
  unfold substitute_pin. generalize (pin_literal ++ v). intros repl. revert H0.
  unfold pin_literal, lit. cbn [list_ascii_of_string app].
  intros H0. rewrite sub_pin_keep by exact H0.
  repeat (rewrite sub_pin_keep by reflexivity). reflexivity.
Qed.

Lemma substitute_pin_keep (v : str) (c : ascii) (s : str) :
  match_pin (c :: s) = None ->
  substitute_pin v (c :: s) = c :: substitute_pin v s.
Proof. apply sub_pin_keep. Qed.

Lemma substitute_pin_replace (v s run rest : str) :
  pinned s run rest ->
  substitute_pin v s = pin_literal ++ v ++ substitute_pin v rest.
Proof.
  intros Hp. unfold substitute_pin.
  rewrite (sub_pin_replace _ _ _ _ Hp). now rewrite <- app_assoc.
Qed.

Lemma substitute_pin_idempotent (v s : str) :
  Forall (fun c => version_char c = true) v ->
  substitute_pin v (substitute_pin v s) = substitute_pin v s.
Proof.
  intros Hv.
  induction s as [s IH] using (induction_ltof1 _ (@length ascii)).
  unfold ltof in IH.
  destruct s as [|c s]; [reflexivity|].
  destruct (match_pin (c :: s)) as [m|] eqn:Hm.
  - destruct (match_pin_Some _ _ Hm) as (run & rest & Hp).
    assert (Hshorter : (length rest < length (c :: s))%nat).
    { destruct Hp as (-> & _). rewrite !length_app.
      assert (length pin_literal = 19%nat) by reflexivity. lia. }
    assert (Hrest : starts_version (substitute_pin v rest) = false).
    { rewrite substitute_pin_starts_version. apply Hp. }
    rewrite (substitute_pin_replace _ _ _ _ Hp).
    destruct v as [|d v].
    + cbn [app]. rewrite substitute_pin_bare_literal by assumption.
      now rewrite IH.
    + rewrite (substitute_pin_replace _ _ (d :: v) (substitute_pin (d :: v) rest)).
      * now rewrite IH by assumption.
      * repeat split; try assumption. discriminate.
  - rewrite substitute_pin_keep by assumption.
    rewrite substitute_pin_keep by now apply substitute_pin_no_new_match.
    rewrite IH; [reflexivity|]. simpl. lia.
Qed.

Lemma version_char_no_backslash (v : str) :
  Forall (fun c => version_char c = true) v ->
  existsb (Ascii.eqb backslash) (pin_literal ++ v) = false.
Proof.
  intros Hv. rewrite existsb_app. change (existsb _ pin_literal) with false.
  cbn [orb].
  induction Hv as [|c v Hc _ IH]; cbn [existsb]; [reflexivity|].
  rewrite IH, orb_false_r.
  destruct (Ascii.eqb_spec backslash c) as [<-|_]; [discriminate Hc|reflexivity].
Qed.

(** C10.  When the new version is made of digits and dots only, the
    dependency-pinning substitution of [update_dependent_projects] answers
    on every text, and applying it to its own answer changes nothing. *)
Theorem pin_dependency_idempotent (new_version content : str) :
  Forall (fun c => version_char c = true) new_version ->
  exists once : str,
    pin_dependency new_version content = Some once
    /\ pin_dependency new_version once = Some once.
Proof.
  intros Hv. exists (substitute_pin new_version content).
  unfold pin_dependency. rewrite version_char_no_backslash by assumption.
  split; [reflexivity|]. now rewrite substitute_pin_idempotent.
Qed.

(** [pin_dependency_idempotent] on a requirements file with two pins. *)
Lemma pin_dependency_idempotent_witness :
  Forall (fun c => version_char c = true) $"1.0.1"
  /\ exists once : str,
       pin_dependency $"1.0.1"
         ($"requests>=2.0" ++ [LF] ++ $"inter-service-sdk==1.0.0" ++ [LF]
          ++ $"inter-service-sdk==0.9.# old") = Some once
       /\ pin_dependency $"1.0.1" once = Some once.
Proof.
  assert (Hv : Forall (fun c => version_char c = true) $"1.0.1")
    by (repeat constructor).
  split; [exact Hv|]. exact (pin_dependency_idempotent _ _ Hv).
Defined.

Example pin_dependency_sample :
  pin_dependency $"1.0.1"
    ($"requests>=2.0" ++ [LF] ++ $"inter-service-sdk==1.0.0" ++ [LF]
     ++ $"inter-service-sdk==0.9.# old" ++ [LF] ++ $"inter-service-sdk==x")
  = Some ($"requests>=2.0" ++ [LF] ++ $"inter-service-sdk==1.0.1" ++ [LF]
          ++ $"inter-service-sdk==1.0.1# old" ++ [LF] ++ $"inter-service-sdk==x").
Proof. reflexivity. Qed.

Example pin_dependency_template : pin_dependency [backslash; "1"%char] $"x" = None.
Proof. reflexivity. Qed.

(** ** C6 and C7: the request dispatcher *)

Module DispatcherFacts.
Import Dispatcher.

Section Facts.
Context `{C : Collaborators}.




(** Every attempt sends the same request. *)
Lemma attempts_same_request (n : nat) (w : WireRequest) (t : TransportState) :
  Forall (fun entry => entry.1 = w) (attempts n w t).1.2.
Proof.
  revert t. induction n as [|n IH]; intros t; [constructor|].
  cbn [attempts]. destruct (transport_send t w) as [o t1].
  destruct n as [|n]; [repeat constructor|].
  destruct (should_retry o); [|repeat constructor].
  specialize (IH t1). destruct (attempts (S n) w t1) as [[final log] t2].
  constructor; [reflexivity|exact IH].
Qed.

Lemma attempts_at_most (n : nat) (w : WireRequest) (t : TransportState) :
  (length (attempts n w t).1.2 <= n)%nat.
Proof.
  revert t. induction n as [|n IH]; intros t; [reflexivity|].
  cbn [attempts]. destruct (transport_send t w) as [o t1].
  destruct n as [|n]; [cbn; lia|].
  destruct (should_retry o); [|cbn; lia].
  specialize (IH t1). destruct (attempts (S n) w t1) as [[final log] t2].
  cbn in *. lia.
Qed.


(** C6.  A call whose URL builds and whose body is ready meets a
    transport that fails at the transport level on the first two attempts
    and answers a 2xx status, with a body that decodes, on the third.  With
    [retry_attempts] 3 the call is a success and the transport saw exactly
    three attempts; with [retry_attempts] 2 the call is a request failure
    carrying the last transport error and the transport saw exactly two.
    Every attempt carried the same request. *)
Theorem retry_policy (cfg : Config) (rd : RequestDescriptor) (e : Entropy)
    (url : str) (body : option bytes) (w : WireRequest)
    (t0 t1 t2 t3 : TransportState) (m1 m2 : string)
    (status : Z) (answer : bytes) (data : Data) :
  target_url cfg rd = inr url ->
  outgoing_body cfg rd e = inr body ->
  w = wire_request cfg rd url body ->
  transport_send t0 w = (TransportFailure m1, t1) ->
  transport_send t1 w = (TransportFailure m2, t2) ->
  transport_send t2 w = (HttpResponse status answer, t3) ->
  is_success status = true ->
  incoming_data cfg rd answer = inr data ->
  (retry_attempts cfg = 3%nat ->
   request cfg rd e t0 =
     (Success status data,
      [(w, TransportFailure m1); (w, TransportFailure m2);
       (w, HttpResponse status answer)],
      t3))
  /\ (retry_attempts cfg = 2%nat ->
      request cfg rd e t0 =
        (RequestFailed None m2,
         [(w, TransportFailure m1); (w, TransportFailure m2)],
         t2)).
Proof.
  intros Hurl Hbody -> H1 H2 H3 Hok Hdata.
  split; intros Hn; unfold request; rewrite Hurl, Hbody, Hn;
    cbn [attempts]; rewrite H1; cbn [should_retry]; rewrite H2.
  - cbn [should_retry]. rewrite H3. cbn [settle]. now rewrite Hok, Hdata.
  - reflexivity.
Qed.


End Facts.
End DispatcherFacts.

(** [retry_policy] on the scripted transport: two connection resets, then
    a 200. *)
Lemma retry_policy_witness :
  Dispatcher.request (C := scripted) (sample_config 3) sample_call ()
    [Dispatcher.TransportFailure "reset"; Dispatcher.TransportFailure "reset again";
     Dispatcher.HttpResponse 200 []]
  = (Dispatcher.Success 200 no_data,
     [(sample_wire, Dispatcher.TransportFailure "reset");
      (sample_wire, Dispatcher.TransportFailure "reset again");
      (sample_wire, Dispatcher.HttpResponse 200 [])],
     [])
  /\ Dispatcher.request (C := scripted) (sample_config 2) sample_call ()
       [Dispatcher.TransportFailure "reset"; Dispatcher.TransportFailure "reset again";
        Dispatcher.HttpResponse 200 []]
     = (Dispatcher.RequestFailed None "reset again",
        [(sample_wire, Dispatcher.TransportFailure "reset");
         (sample_wire, Dispatcher.TransportFailure "reset again")],
        [Dispatcher.HttpResponse 200 []]).
Proof.
  split.
  - eapply (DispatcherFacts.retry_policy (C := scripted) (sample_config 3) sample_call ()
             $"https://api.example.com/api/v1/users" None sample_wire
             _ _ _ _ _ _ 200 [] no_data); reflexivity.
  - eapply (DispatcherFacts.retry_policy (C := scripted) (sample_config 2) sample_call ()
             $"https://api.example.com/api/v1/users" None sample_wire
             _ _ _ _ _ _ 200 [] no_data); reflexivity.
Defined.


(** * More of the release script *)

(** ** increment_version, release after release *)

Lemma split_numeral_version (a b c : Z) :
  PyStr.split dot (numeral_version a b c)
  = [PyStr.decimal a; PyStr.decimal b; PyStr.decimal c].
Proof.
  unfold numeral_version. cbn [app].
  rewrite split_at_first_sep by apply decimal_no_dot.
  rewrite split_at_first_sep by apply decimal_no_dot.
  now rewrite split_without_sep by apply decimal_no_dot.
Qed.

Lemma py_int_decimal_fits (z : Z) :
  Z.abs z < digit_limit -> py_int (PyStr.decimal z) = Ok z.
Proof.
  intros Hz. apply format_int_fits in Hz.
  exact (proj2 (format_int_decimal _ _ Hz)).
Qed.

Lemma increment_version_parts (s p0 p1 p2 : str) (a b c : Z) :
  PyStr.split dot s = [p0; p1; p2] ->
  py_int p0 = Ok a -> py_int p1 = Ok b -> py_int p2 = Ok c ->
  c + 1 < digit_limit ->
  increment_version s = Ok (numeral_version a b (c + 1)).
Proof.
  intros Hs H0 H1 H2 Hc.
  rewrite (increment_version_parsed _ _ _ _ _ _ _ Hs H0 H1 H2).
  pose proof (py_int_lt _ _ H2).
  rewrite format_int_fits; [reflexivity|lia].
Qed.

Lemma increment_version_parts_limit (s p0 p1 p2 : str) (a b c : Z) :
  PyStr.split dot s = [p0; p1; p2] ->
  py_int p0 = Ok a -> py_int p1 = Ok b -> py_int p2 = Ok c ->
  digit_limit <= c + 1 ->
  increment_version s = Raise ValueErrorLimit.
Proof.
  intros Hs H0 H1 H2 Hc.
  rewrite (increment_version_parsed _ _ _ _ _ _ _ Hs H0 H1 H2).
  rewrite format_int_exceeds; [reflexivity|lia].
Qed.

(** What a successful call on a three-part string has read. *)
Lemma increment_version_three_parts (s s' p0 p1 p2 : str) :
  PyStr.split dot s = [p0; p1; p2] ->
  increment_version s = Ok s' ->
  exists a b c : Z,
    py_int p0 = Ok a /\ py_int p1 = Ok b /\ py_int p2 = Ok c
    /\ s' = numeral_version a b (c + 1).
Proof.
  intros Hs. unfold increment_version. rewrite Hs. unfold mbind, result_bind.
  destruct (py_int p0) as [a|]; [|discriminate].
  destruct (py_int p1) as [b|]; [|discriminate].
  destruct (py_int p2) as [c|]; [|discriminate].
  destruct (PyStr.format_int a) as [ta|] eqn:Ha; [|discriminate].
  destruct (PyStr.format_int b) as [tb|] eqn:Hb; [|discriminate].
  destruct (PyStr.format_int (c + 1)) as [tc|] eqn:Hc; [|discriminate].
  apply format_int_decimal in Ha as [-> _], Hb as [-> _], Hc as [-> _].
  intros [= <-]. now exists a, b, c.
Qed.

(** X5.  When [increment_version] returns, it returns its argument unchanged
    exactly when the argument does not split into three parts at the dots:
    a version with three integer parts is never left as it was. *)
Theorem increment_version_unchanged_iff (s s' : str) :
  increment_version s = Ok s' ->
  (s' = s <-> length (PyStr.split dot s) <> 3%nat).
Proof.
  intros Hrun. split.
  - intros -> Hlen.
    destruct (PyStr.split dot s) as [|p0 [|p1 [|p2 [|p3 rest]]]] eqn:Hs;
      try discriminate Hlen.
    destruct (increment_version_three_parts _ _ _ _ _ Hs Hrun)
      as (a & b & c & _ & _ & H2 & Heq).
    rewrite Heq, split_numeral_version in Hs. injection Hs as _ _ <-.
    apply py_int_decimal_inv in H2. lia.
  - intros Hlen. revert Hrun. unfold increment_version.
    destruct (PyStr.split dot s) as [|p0 [|p1 [|p2 [|p3 rest]]]];
      try (now intros [= <-]).
    now contradiction Hlen.
Qed.

(** [increment_version_unchanged_iff] on a version with three parts. *)
Lemma increment_version_unchanged_iff_witness :
  increment_version $"1.0.9" = Ok $"1.0.10"
  /\ ($"1.0.10" = $"1.0.9" <-> length (PyStr.split dot $"1.0.9") <> 3%nat).
Proof.
  split; [reflexivity|].
  exact (increment_version_unchanged_iff $"1.0.9" $"1.0.10" eq_refl).
Defined.

(** Release after release from a version in plain decimal: the patch
    number counts up as long as it stays below [digit_limit], and the
    release that would reach it raises. *)
Lemma bump_times_numeral (n : nat) (a b c : Z) :
  Z.abs a < digit_limit -> Z.abs b < digit_limit ->
  - digit_limit < c < digit_limit ->
  (c + Z.of_nat n < digit_limit ->
   bump_times n (numeral_version a b c) = Ok (numeral_version a b (c + Z.of_nat n)))
  /\ (digit_limit <= c + Z.of_nat n ->
      bump_times n (numeral_version a b c) = Raise ValueErrorLimit).
Proof.
  intros Ha Hb. revert c. induction n as [|n IH]; intros c Hc.
  - split; [|lia]. intros _. cbn. now rewrite Z.add_0_r.
  - cbn [bump_times].
    pose proof (split_numeral_version a b c) as Hs.
    pose proof (py_int_decimal_fits a Ha) as H0.
    pose proof (py_int_decimal_fits b Hb) as H1.
    pose proof (py_int_decimal_fits c ltac:(lia)) as H2.
    destruct (Z_lt_le_dec (c + 1) digit_limit) as [Hfit|Hover].
    + rewrite (increment_version_parts _ _ _ _ _ _ _ Hs H0 H1 H2 Hfit).
      unfold mbind, result_bind.
      destruct (IH (c + 1) ltac:(lia)) as [Hok Hraise].
      split; intros Hn.
      * rewrite Hok by lia. do 2 f_equal. lia.
      * apply Hraise. lia.
    + rewrite (increment_version_parts_limit _ _ _ _ _ _ _ Hs H0 H1 H2 Hover).
      split; [lia|reflexivity].
Qed.

(** X6.  Releases count up to the digit limit: from a version whose three
    parts read as [a], [b] and [c], however they are written, [n] releases
    in a row ([n] at least one) end at [a.b.(c+n)] in plain decimal as long
    as [c + n] is below [digit_limit], the first number [str] does not
    write; when [c + n] reaches it, the releases end in [ValueError]. *)
Theorem bump_times_adds (n : nat) (s p0 p1 p2 : str) (a b c : Z) :
  PyStr.split dot s = [p0; p1; p2] ->
  py_int p0 = Ok a -> py_int p1 = Ok b -> py_int p2 = Ok c ->
  (c + Z.of_nat (S n) < digit_limit ->
   bump_times (S n) s = Ok (numeral_version a b (c + Z.of_nat (S n))))
  /\ (digit_limit <= c + Z.of_nat (S n) ->
      bump_times (S n) s = Raise ValueErrorLimit).
Proof.
  intros Hs H0 H1 H2. cbn [bump_times].
  pose proof (py_int_lt _ _ H0) as Ha.
  pose proof (py_int_lt _ _ H1) as Hb.
  pose proof (py_int_lt _ _ H2) as Hc.
  destruct (Z_lt_le_dec (c + 1) digit_limit) as [Hfit|Hover].
  - rewrite (increment_version_parts _ _ _ _ _ _ _ Hs H0 H1 H2 Hfit).
    unfold mbind, result_bind.
    destruct (bump_times_numeral n a b (c + 1) Ha Hb ltac:(lia)) as [Hok Hraise].
    split; intros Hn.
    + rewrite Hok by lia. do 2 f_equal. lia.
    + apply Hraise. lia.
  - rewrite (increment_version_parts_limit _ _ _ _ _ _ _ Hs H0 H1 H2 Hover).
    split; [lia|reflexivity].
Qed.

(** [bump_times_adds] on a version written with white space, a leading
    zero, an underscore and a sign: three releases. *)
Lemma bump_times_adds_witness :
  bump_times 3 $" 01.2_0.+8" = Ok $"1.20.11".
Proof.
  refine (proj1 (bump_times_adds 2 $" 01.2_0.+8" $" 01" $"2_0" $"+8" 1 20 8
                   eq_refl eq_refl eq_refl eq_refl) _).
  apply below_digit_limit. reflexivity.
Defined.

(** Two releases from a patch number one below the last that [str] writes:
    the first returns, the second raises. *)
Example bump_times_limit :
  bump_times 2 (numeral_version 1 0 (digit_limit - 2)) = Raise ValueErrorLimit.
Proof.
  pose proof digit_limit_pos.
  apply bump_times_numeral; try (apply below_digit_limit; reflexivity); lia.
Qed.

(** ** Text files, read back *)

(** Nothing read in text mode holds a carriage return. *)
Lemma read_newlines_no_cr (raw : str) :
  Forall (fun c => c <> CR) (read_newlines raw).
Proof.
  enough (H : Forall (fun c => c <> CR) (read_newlines raw)
              /\ Forall (fun c => c <> CR) (read_newlines (tl raw))) by apply H.
  induction raw as [|c raw [IH IHtl]]; [split; constructor|].
  split; [|exact IH]. cbn [read_newlines].
  destruct (Ascii.eqb_spec c CR) as [->|Hc].
  - constructor; [discriminate|].
    destruct raw as [|c' raw']; [constructor|].
    destruct (Ascii.eqb c' LF); assumption.
  - constructor; assumption.
Qed.

(** A text without carriage returns is read back as it was written, on
    either platform. *)
Lemma read_write_newlines (os : platform) (text : str) :
  Forall (fun c => c <> CR) text ->
  read_newlines (write_newlines os text) = text.
Proof.
  induction 1 as [|c text Hc _ IH]; [reflexivity|].
  cbn [write_newlines].
  destruct (Ascii.eqb_spec c LF) as [->|Hlf].
  - destruct os; cbn; now rewrite IH.
  - cbn [app read_newlines]. destruct (Ascii.eqb_spec c CR); [contradiction|].
    now rewrite IH.
Qed.

Section Preserved.
Variable P : ascii -> Prop.

Lemma split_parts_forall (sep : ascii) (s : str) :
  Forall P s -> Forall (Forall P) (PyStr.split sep s).
Proof.
  induction 1 as [|c s Hc _ IH]; cbn [PyStr.split]; [repeat constructor|].
  destruct (Ascii.eqb c sep); [constructor; [constructor|exact IH]|].
  destruct (PyStr.split sep s) as [|part parts]; [repeat constructor; exact Hc|].
  apply Forall_cons in IH as [Hp Hps].
  constructor; [constructor; assumption|assumption].
Qed.

Lemma join_forall (sep : str) (parts : list str) :
  Forall P sep -> Forall (Forall P) parts -> Forall P (PyStr.join sep parts).
Proof.
  intros Hsep. induction 1 as [|p rest Hp Hrest IH]; [constructor|].
  destruct rest as [|q rest]; [exact Hp|].
  change (PyStr.join sep (p :: q :: rest)) with (p ++ sep ++ PyStr.join sep (q :: rest)).
  rewrite !Forall_app. auto.
Qed.

Lemma replace_first_line_forall (pre new : str) (lines : list str) :
  Forall P new -> Forall (Forall P) lines ->
  Forall (Forall P) (replace_first_line pre new lines).
Proof.
  intros Hnew Hall. unfold replace_first_line.
  destruct (first_line_with pre lines) as [i|]; [|exact Hall].
  apply Forall_insert; assumption.
Qed.

Lemma rewritten_text_forall (pre new raw : str) :
  P LF -> Forall P new -> Forall P (read_newlines raw) ->
  Forall P (rewritten_text pre new raw).
Proof.
  intros Hlf Hnew Hraw. unfold rewritten_text, text_lines.
  apply join_forall; [repeat constructor; exact Hlf|].
  apply replace_first_line_forall; [exact Hnew|].
  now apply split_parts_forall.
Qed.

End Preserved.

(** The lines of the rewritten text, when the new line has no newline. *)
Lemma split_rewritten_text (pre new raw : str) :
  Forall (fun c => c <> LF) new ->
  PyStr.split LF (rewritten_text pre new raw)
  = replace_first_line pre new (text_lines raw).
Proof.
  intros Hnew. unfold rewritten_text. apply split_join.
  - apply replace_first_line_not_nil, split_not_nil.
  - apply replace_first_line_without; [assumption|apply split_parts_without_sep].
Qed.

(** ** Lines with their newlines *)

Lemma iter_lines_keepends (text : str) :
  iter_lines text = keepends (PyStr.split LF text).
Proof.
  induction text as [|c text IH]; [reflexivity|].
  cbn [iter_lines PyStr.split]. pose proof (split_not_nil LF text) as Hne.
  destruct (Ascii.eqb c LF).
  - rewrite IH. destruct (PyStr.split LF text); [contradiction|reflexivity].
  - rewrite IH. destruct (PyStr.split LF text) as [|part parts]; [contradiction|].
    destruct parts as [|part' parts]; [now destruct part|reflexivity].
Qed.

(** A character that is not in the prefix stops the comparison. *)
Lemma startswith_app_stop (pre line rest : str) (d : ascii) :
  Forall (fun c => c <> d) pre -> pre <> [] ->
  PyStr.startswith (line ++ d :: rest) pre = PyStr.startswith line pre.
Proof.
  intros Hpre. revert line. induction Hpre as [|p pre Hp Hpre IH]; [contradiction|].
  intros line _. destruct line as [|c line]; cbn [app PyStr.startswith].
  - destruct (Ascii.eqb_spec d p) as [->|_]; [contradiction|reflexivity].
  - destruct (Ascii.eqb c p); [|reflexivity]. cbn [andb].
    destruct pre as [|p' pre]; [now destruct line|].
    now apply IH.
Qed.

(** The first line starting with [pre], found among the lines with their
    newlines, is the one [first_line_with] points at, with or without its
    newline. *)
Lemma find_keepends (pre : str) (parts : list str) :
  Forall (fun c => c <> LF) pre -> pre <> [] ->
  match first_line_with pre parts with
  | Some i =>
      exists (part ending : str),
        parts !! i = Some part
        /\ (ending = [] \/ ending = [LF])
        /\ find (fun line => PyStr.startswith line pre) (keepends parts)
           = Some (part ++ ending)
  | None => find (fun line => PyStr.startswith line pre) (keepends parts) = None
  end.
Proof.
  intros Hpre Hne. induction parts as [|part rest IH]; [reflexivity|].
  cbn [first_line_with keepends].
  destruct rest as [|part' rest].
  - destruct (PyStr.startswith part pre) eqn:Hstart.
    + exists part, []. rewrite app_nil_r.
      destruct part as [|c part].
      { destruct pre; [contradiction|discriminate Hstart]. }
      cbn [find]. rewrite Hstart. auto.
    + cbn. destruct part as [|c part]; [reflexivity|].
      cbn [find]. now rewrite Hstart.
  - cbn [find]. rewrite startswith_app_stop by assumption.
    destruct (PyStr.startswith part pre) eqn:Hstart.
    + exists part, [LF]. auto.
    + destruct (first_line_with pre (part' :: rest)) as [i|].
      * destruct IH as (p & e & Hp & He & Hfind). now exists p, e.
      * exact IH.
Qed.

Lemma first_line_with_replaced (pre new : str) (lines : list str) :
  PyStr.startswith new pre = true ->
  first_line_with pre (replace_first_line pre new lines) = first_line_with pre lines
  /\ forall i : nat,
       first_line_with pre lines = Some i ->
       replace_first_line pre new lines !! i = Some new.
Proof.
  intros Hnew. unfold replace_first_line.
  destruct (first_line_with pre lines) as [i|] eqn:Hi; [|split; [exact Hi|discriminate]].
  split.
  - revert i Hi. induction lines as [|line rest IH]; intros i;
      cbn [first_line_with]; [discriminate|].
    destruct (PyStr.startswith line pre) eqn:Hline.
    + intros [= <-]. cbn. now rewrite Hnew.
    + destruct (first_line_with pre rest) as [k|] eqn:Hk; [|discriminate].
      intros [= <-].
      change (<[S k:=new]> (line :: rest)) with (line :: <[k:=new]> rest).
      cbn [first_line_with]. now rewrite Hline, (IH k eq_refl).
  - intros k [= <-]. apply list_lookup_insert_eq. eapply first_line_with_lt, Hi.
Qed.

(** Replacing the first line starting with [pre] by a line that starts
    with [pre] can be repeated without effect. *)
Lemma replace_first_line_again (pre new : str) (lines : list str) :
  PyStr.startswith new pre = true ->
  replace_first_line pre new (replace_first_line pre new lines)
  = replace_first_line pre new lines.
Proof.
  intros Hnew. destruct (first_line_with_replaced pre new lines Hnew) as [Hsame Hat].
  unfold replace_first_line at 1. rewrite Hsame.
  destruct (first_line_with pre lines) as [i|]; [|reflexivity].
  apply list_insert_id. now apply Hat.
Qed.

(** ** get_current_version and update_version_in_files *)

Lemma version_prefix_facts :
  Forall (fun c => c <> LF) $"version" /\ $"version" <> []
  /\ Forall (fun c => c <> dq) $"version = ".
Proof. repeat split; try discriminate; vm_compute; repeat constructor; discriminate. Qed.

(** [get_current_version] and [update_version_in_files] mean the same line:
    the first line of the text read that starts with ["version"]. *)
Lemma get_current_version_line (fs : gmap string str) (raw : str) :
  fs !! pyproject = Some raw ->
  match first_line_with $"version" (text_lines raw) with
  | Some i =>
      exists line ending : str,
        text_lines raw !! i = Some line
        /\ (ending = [] \/ ending = [LF])
        /\ get_current_version fs =
           match PyStr.split dq (line ++ ending) with
           | _ :: version :: _ => Returned version
           | _ => RaisedIndexError
           end
  | None => get_current_version fs = Returned $"unknown"
  end.
Proof.
  intros Hraw. unfold get_current_version, version_of_lines. rewrite Hraw.
  rewrite iter_lines_keepends. fold (text_lines raw).
  destruct version_prefix_facts as (Hlf & Hne & _).
  pose proof (find_keepends $"version" (text_lines raw) Hlf Hne) as Hfind.
  destruct (first_line_with $"version" (text_lines raw)) as [i|].
  - destruct Hfind as (line & ending & Hline & Hending & ->).
    now exists line, ending.
  - now rewrite Hfind.
Qed.

Lemma startswith_version_lines (v : str) :
  PyStr.startswith (version_line v) $"version" = true
  /\ PyStr.startswith (dunder_version_line v) $"__version__" = true.
Proof. split; reflexivity. Qed.

Lemma version_lines_without_cr (v : str) :
  Forall (fun x => x <> CR) v ->
  Forall (fun x => x <> CR) (version_line v) /\
  Forall (fun x => x <> CR) (dunder_version_line v).
Proof.
  intros Hv. apply literal_lines_without; [assumption|discriminate| |];
    vm_compute; repeat constructor; discriminate.
Qed.

(** The file system [update_version_in_files] returns. *)
Lemma update_version_in_files_result (os : platform) (v : str)
    (fs : gmap string str) (raw0 : str) :
  fs !! pyproject = Some raw0 ->
  update_version_in_files os v fs =
    Ok (let fs1 :=
          <[pyproject := write_newlines os
                           (rewritten_text $"version" (version_line v) raw0)]> fs in
        match fs !! init_file with
        | Some raw1 =>
            <[init_file := write_newlines os
                             (rewritten_text $"__version__" (dunder_version_line v) raw1)]>
              fs1
        | None => fs1
        end).
Proof.
  intros Hraw0. unfold update_version_in_files.
  rewrite (rewrite_file_ok _ _ _ _ _ _ Hraw0). unfold mbind, result_bind.
  rewrite lookup_insert_ne by discriminate.
  destruct (fs !! init_file) as [raw1|] eqn:Hraw1; [|reflexivity].
  now rewrite (rewrite_file_ok _ _ _ _ _ raw1)
    by (now rewrite lookup_insert_ne by discriminate).
Qed.

(** What [get_current_version] reads in the rewritten text. *)
Lemma version_of_rewritten_text (v raw : str) :
  Forall (fun c => c <> dq) v -> Forall (fun c => c <> LF) v ->
  version_of_lines (iter_lines (rewritten_text $"version" (version_line v) raw))
  = match first_line_with $"version" (text_lines raw) with
    | Some _ => Returned v
    | None => Returned $"unknown"
    end.
Proof.
  intros Hq Hlf.
  destruct version_prefix_facts as (Hplf & Hne & Hpq).
  destruct (startswith_version_lines v) as [Hstart _].
  destruct (version_lines_without_lf v Hlf) as [Hline _].
  rewrite iter_lines_keepends, split_rewritten_text by assumption.
  destruct (first_line_with_replaced $"version" (version_line v) (text_lines raw) Hstart)
    as [Hsame Hat].
  pose proof (find_keepends $"version"
                (replace_first_line $"version" (version_line v) (text_lines raw))
                Hplf Hne) as Hfind.
  rewrite Hsame in Hfind. unfold version_of_lines.
  destruct (first_line_with $"version" (text_lines raw)) as [i|].
  - destruct Hfind as (part & ending & Hpart & _ & ->).
    rewrite (Hat i eq_refl) in Hpart. injection Hpart as <-.
    unfold version_line. rewrite <- !app_assoc. cbn [app].
    rewrite split_at_first_sep by assumption.
    now rewrite split_at_first_sep by assumption.
  - now rewrite Hfind.
Qed.

Lemma get_current_version_updated (os : platform) (v : str)
    (fs : gmap string str) (raw : str) :
  fs !! pyproject = Some raw ->
  Forall (fun c => c <> dq) v -> Forall (fun c => c <> LF) v ->
  Forall (fun c => c <> CR) v ->
  exists fs' : gmap string str,
    update_version_in_files os v fs = Ok fs'
    /\ get_current_version fs' =
       match first_line_with $"version" (text_lines raw) with
       | Some _ => Returned v
       | None => Returned $"unknown"
       end.
Proof.
  intros Hraw Hq Hlf Hcr. eexists.
  split; [exact (update_version_in_files_result os v fs raw Hraw)|].
  cbv zeta. unfold get_current_version.
  assert (Hfile : forall stored : str,
             match fs !! init_file with
             | Some raw1 =>
                 <[init_file := write_newlines os
                     (rewritten_text $"__version__" (dunder_version_line v) raw1)]>
                   (<[pyproject := stored]> fs)
             | None => <[pyproject := stored]> fs
             end !! pyproject = Some stored).
  { intros stored. destruct (fs !! init_file).
    - now rewrite lookup_insert_ne, lookup_insert_eq by discriminate.
    - now rewrite lookup_insert_eq. }
  rewrite Hfile, read_write_newlines.
  - now apply version_of_rewritten_text.
  - apply rewritten_text_forall;
      [discriminate|now apply version_lines_without_cr|apply read_newlines_no_cr].
Qed.

(** X1.  After [update_version_in_files] has written a version that holds no
    double quote and no line break, [get_current_version] returns that
    version, provided the project file has a line starting with ["version"];
    without such a line it still returns ["unknown"].  This holds on both
    platforms and whatever line ends the file had. *)
Theorem get_current_version_after_update (os : platform) (new_version : str)
    (fs : gmap string str) (raw : str) :
  fs !! pyproject = Some raw ->
  Forall (fun c => c <> dq /\ c <> LF /\ c <> CR) new_version ->
  exists fs' : gmap string str,
    update_version_in_files os new_version fs = Ok fs'
    /\ get_current_version fs' =
       match first_line_with $"version" (text_lines raw) with
       | Some _ => Returned new_version
       | None => Returned $"unknown"
       end.
Proof.
  intros Hraw Hv.
  apply get_current_version_updated; [assumption|..];
    (eapply Forall_impl; [exact Hv|]; intros c (? & ? & ?); assumption).
Qed.

(** [get_current_version_after_update] on a project file with carriage
    returns, written on Windows. *)
Lemma get_current_version_after_update_witness :
  exists fs' : gmap string str,
    update_version_in_files Windows $"2.0.0rc1" release_project = Ok fs'
    /\ get_current_version fs' = Returned $"2.0.0rc1".
Proof.
  refine (get_current_version_after_update Windows $"2.0.0rc1" release_project _ eq_refl _).
  vm_compute. repeat constructor; discriminate.
Defined.

(** X4.  Which version [get_current_version] finds: ["unknown"] when no line of
    the text starts with ["version"]; otherwise it looks at the first such
    line only, raises [IndexError] when that line has no double quote, and
    returns what stands between its first two double quotes. *)
Theorem get_current_version_reads_first_line (fs : gmap string str) (raw : str) :
  fs !! pyproject = Some raw ->
  (first_line_with $"version" (text_lines raw) = None ->
   get_current_version fs = Returned $"unknown")
  /\ (forall (i : nat) (line : str),
        first_line_with $"version" (text_lines raw) = Some i ->
        text_lines raw !! i = Some line ->
        (Forall (fun c => c <> dq) line ->
         get_current_version fs = RaisedIndexError)
        /\ (forall before version after : str,
              line = before ++ dq :: version ++ dq :: after ->
              Forall (fun c => c <> dq) before ->
              Forall (fun c => c <> dq) version ->
              get_current_version fs = Returned version)).
Proof.
  intros Hraw. pose proof (get_current_version_line fs raw Hraw) as Hget.
  split.
  - intros Hnone. now rewrite Hnone in Hget.
  - intros i line Hi Hline. rewrite Hi in Hget.
    destruct Hget as (line' & ending & Hline' & Hending & ->).
    replace line' with line by congruence. split.
    + intros Hq. rewrite split_without_sep; [reflexivity|].
      apply Forall_app. split; [assumption|].
      destruct Hending as [-> | ->]; repeat constructor; discriminate.
    + intros before version after -> Hb Hv.
      rewrite <- !app_assoc. cbn [app].
      rewrite split_at_first_sep by assumption.
      rewrite <- app_assoc. cbn [app].
      now rewrite split_at_first_sep by assumption.
Qed.

(** [get_current_version_reads_first_line] on a project file whose version
    line is the third line and is followed by another line starting with
    the same word. *)
Lemma get_current_version_reads_first_line_witness :
  get_current_version release_project = Returned $"1.4.9".
Proof.
  destruct (get_current_version_reads_first_line release_project _ eq_refl)
    as [_ Hfirst].
  destruct (Hfirst 2%nat (version_line $"1.4.9") eq_refl eq_refl) as [_ Hquoted].
  apply (Hquoted $"version = " $"1.4.9" []); [reflexivity|..];
    vm_compute; repeat constructor; discriminate.
Defined.

(** ** Running the version update again *)

Lemma rewritten_text_again (os : platform) (pre new raw : str) :
  PyStr.startswith new pre = true ->
  Forall (fun c => c <> LF) new -> Forall (fun c => c <> CR) new ->
  rewritten_text pre new (write_newlines os (rewritten_text pre new raw))
  = rewritten_text pre new raw.
Proof.
  intros Hstart Hlf Hcr. unfold rewritten_text at 1. unfold text_lines.
  rewrite read_write_newlines
    by (apply rewritten_text_forall;
        [discriminate|assumption|apply read_newlines_no_cr]).
  rewrite split_rewritten_text by assumption.
  now rewrite replace_first_line_again.
Qed.

(** X2.  Running [update_version_in_files] a second time with the same version
    (one without line break) changes no file: what the first run returned is
    returned again. *)
Theorem update_version_in_files_idempotent (os : platform) (new_version : str)
    (fs fs1 : gmap string str) :
  Forall (fun c => c <> LF /\ c <> CR) new_version ->
  update_version_in_files os new_version fs = Ok fs1 ->
  update_version_in_files os new_version fs1 = Ok fs1.
Proof.
  intros Hv Hrun.
  assert (Hlf : Forall (fun c => c <> LF) new_version)
    by (eapply Forall_impl; [exact Hv|]; intros c [? ?]; assumption).
  assert (Hcr : Forall (fun c => c <> CR) new_version)
    by (eapply Forall_impl; [exact Hv|]; intros c [? ?]; assumption).
  destruct (startswith_version_lines new_version) as [Hs0 Hs1].
  destruct (version_lines_without_lf _ Hlf) as [Hlf0 Hlf1].
  destruct (version_lines_without_cr _ Hcr) as [Hcr0 Hcr1].
  destruct (fs !! pyproject) as [raw0|] eqn:Hraw0.
  2:{ unfold update_version_in_files, rewrite_file, read_text in Hrun.
      rewrite Hraw0 in Hrun. discriminate Hrun. }
  rewrite (update_version_in_files_result _ _ _ _ Hraw0) in Hrun.
  injection Hrun as <-. cbv zeta.
  destruct (fs !! init_file) as [raw1|] eqn:Hraw1.
  - erewrite update_version_in_files_result
      by (now rewrite lookup_insert_ne, lookup_insert_eq by discriminate).
    cbv zeta. rewrite lookup_insert_eq.
    rewrite !rewritten_text_again by assumption.
    f_equal. apply map_eq. intros path. rewrite !lookup_insert.
    repeat case_decide; reflexivity.
  - erewrite update_version_in_files_result by apply lookup_insert_eq.
    cbv zeta. rewrite lookup_insert_ne, Hraw1 by discriminate.
    rewrite !rewritten_text_again by assumption.
    f_equal. now rewrite insert_insert_eq.
Qed.

(** [update_version_in_files_idempotent] on a project with both files. *)
Lemma update_version_in_files_idempotent_witness :
  exists fs1 : gmap string str,
    update_version_in_files Posix $"1.5.0" release_project = Ok fs1
    /\ update_version_in_files Posix $"1.5.0" fs1 = Ok fs1.
Proof.
  pose proof (update_version_in_files_result Posix $"1.5.0" release_project _ eq_refl)
    as Hrun.
  eexists. split; [exact Hrun|].
  refine (update_version_in_files_idempotent Posix $"1.5.0" release_project _ _ Hrun).
  vm_compute. repeat constructor; discriminate.
Defined.

(** ** The version bump of main *)

Lemma numeral_char_plain (c : ascii) :
  numeral_char c -> c <> dq /\ c <> LF /\ c <> CR.
Proof.
  intros [[d Hd]| ->]; [|repeat split; discriminate].
  destruct c as [[] [] [] [] [] [] [] []]; vm_compute in Hd; try discriminate;
    repeat split; discriminate.
Qed.

Lemma numeral_version_plain (a b c : Z) :
  Forall (fun x => x <> dq /\ x <> LF /\ x <> CR) (numeral_version a b c).
Proof.
  unfold numeral_version. rewrite !Forall_app.
  repeat split;
    try (eapply Forall_impl; [apply decimal_chars|apply numeral_char_plain]);
    repeat constructor; discriminate.
Qed.

(** What [get_current_version] returns holds no double quote and no
    carriage return. *)
Lemma get_current_version_plain (fs : gmap string str) (v : str) :
  get_current_version fs = Returned v ->
  Forall (fun c => c <> dq) v /\ Forall (fun c => c <> CR) v.
Proof.
  unfold get_current_version. destruct (fs !! pyproject) as [raw|]; [|discriminate].
  unfold version_of_lines.
  destruct (find _ _) as [line|] eqn:Hfind.
  - apply find_some in Hfind as [Hin _].
    assert (Hline : Forall (fun c => c <> CR) line).
    { rewrite iter_lines_keepends in Hin.
      pose proof (split_parts_forall (fun c => c <> CR) LF _ (read_newlines_no_cr raw))
        as Hparts.
      revert Hin. induction Hparts as [|part rest Hpart _ IH]; [intros []|].
      cbn [keepends]. destruct rest as [|part' rest].
      - destruct part; [intros []|]. intros [<-|[]]. exact Hpart.
      - intros [<-|Hin]; [|now apply IH].
        apply Forall_app. split; [exact Hpart|repeat constructor; discriminate]. }
    pose proof (split_parts_without_sep dq line) as Hq.
    pose proof (split_parts_forall _ dq line Hline) as Hcr.
    destruct (PyStr.split dq line) as [|p0 [|p1 rest]]; try discriminate.
    intros [= <-].
    apply Forall_cons in Hq as [_ Hq]. apply Forall_cons in Hq as [Hq _].
    apply Forall_cons in Hcr as [_ Hcr]. apply Forall_cons in Hcr as [Hcr _].
    now split.
  - intros [= <-]. split; vm_compute; repeat constructor; discriminate.
Qed.

(** X3.  The bump at the start of [main]: whenever [get_current_version] returns
    a version [v] (with no line break in it) and [increment_version] turns
    it into [v'], [update_version_in_files] succeeds with [v'] and
    [get_current_version] then returns [v'].  So the version that [main]
    goes on to build, publish and pin is the one the project file holds. *)
Theorem main_bump_recorded (os : platform) (fs : gmap string str)
    (current_version new_version : str) :
  get_current_version fs = Returned current_version ->
  Forall (fun c => c <> LF) current_version ->
  increment_version current_version = Ok new_version ->
  exists fs' : gmap string str,
    update_version_in_files os new_version fs = Ok fs'
    /\ get_current_version fs' = Returned new_version.
Proof.
  intros Hget Hlf Hinc.
  destruct (get_current_version_plain _ _ Hget) as [Hq Hcr].
  assert (Hplain : Forall (fun c => c <> dq) new_version
                   /\ Forall (fun c => c <> LF) new_version
                   /\ Forall (fun c => c <> CR) new_version).
  { destruct (PyStr.split dot current_version) as [|p0 [|p1 [|p2 [|p3 rest]]]] eqn:Hs;
      try (unfold increment_version in Hinc; rewrite Hs in Hinc;
           injection Hinc as <-; now repeat split).
    destruct (increment_version_three_parts _ _ _ _ _ Hs Hinc)
      as (a & b & c & _ & _ & _ & ->).
    pose proof (numeral_version_plain a b (c + 1)) as Hall.
    repeat split; (eapply Forall_impl; [exact Hall|]; intros x (? & ? & ?); assumption). }
  destruct Hplain as (Hq' & Hlf' & Hcr').
  destruct (fs !! pyproject) as [raw|] eqn:Hraw.
  2:{ unfold get_current_version in Hget. rewrite Hraw in Hget. discriminate Hget. }
  destruct (get_current_version_updated os new_version fs raw Hraw Hq' Hlf' Hcr')
    as (fs' & Hrun & Hget').
  exists fs'. split; [exact Hrun|]. rewrite Hget'.
  pose proof (get_current_version_line fs raw Hraw) as Hline.
  destruct (first_line_with $"version" (text_lines raw)); [reflexivity|].
  rewrite Hget in Hline. injection Hline as ->.
  vm_compute in Hinc. now injection Hinc as <-.
Qed.

(** [main_bump_recorded] from version 1.4.9. *)
Lemma main_bump_recorded_witness :
  exists fs' : gmap string str,
    update_version_in_files Posix $"1.4.10" release_project = Ok fs'
    /\ get_current_version fs' = Returned $"1.4.10".
Proof.
  refine (main_bump_recorded Posix release_project $"1.4.9" $"1.4.10" eq_refl _ eq_refl).
  vm_compute. repeat constructor; discriminate.
Defined.

(** ** The pin substitution, line by line *)



Section Stop.
Variable d : ascii.
Hypothesis d_no_version : version_char d = false.
Hypothesis d_not_in_literal : Forall (fun c => c <> d) pin_literal.



End Stop.





(** ** Every pin carries the new version *)

Lemma no_pin_inside_literal (k : nat) (tail : str) :
  (1 <= k <= 18)%nat ->
  PyStr.startswith (drop k pin_literal ++ tail) pin_literal = false.
Proof.
  intros Hk.
  do 19 (destruct k as [|k]; [first [lia|reflexivity]|]). lia.
Qed.

Lemma pinned_starts (t run after : str) :
  pinned t run after -> PyStr.startswith t pin_literal = true.
Proof. intros (-> & _). apply startswith_app. Qed.

Lemma pinned_run (t run after : str) :
  pinned t run after -> forall run' after', pinned t run' after' -> run' = run.
Proof.
  intros (-> & _ & Hrun & Hafter) run' after' (Heq & _ & Hrun' & Hafter').
  apply app_inv_head in Heq.
  rewrite <- (take_version_run run after Hrun Hafter).
  rewrite Heq. now rewrite take_version_run.
Qed.

Lemma substitute_pin_pins (v s : str) :
  Forall (fun c => version_char c = true) v ->
  forall (k : nat) (run after : str),
    pinned (drop k (substitute_pin v s)) run after -> run = v.
Proof.
  intros Hv.
  induction s as [s IH] using (induction_ltof1 _ (@length ascii)).
  unfold ltof in IH. intros k run after Hp.
  destruct s as [|c s].
  { cbn in Hp. rewrite drop_nil in Hp. apply pinned_starts in Hp.
    discriminate Hp. }
  destruct (match_pin (c :: s)) as [m|] eqn:Hm.
  - destruct (match_pin_Some _ _ Hm) as (run0 & rest & Hp0).
    assert (Hshorter : (length rest < length (c :: s))%nat).
    { destruct Hp0 as (-> & _). rewrite !length_app.
      assert (length pin_literal = 19%nat) by reflexivity. lia. }
    assert (Hrest : starts_version (substitute_pin v rest) = false).
    { rewrite substitute_pin_starts_version. apply Hp0. }
    rewrite (substitute_pin_replace _ _ _ _ Hp0) in Hp.
    assert (Hlen : length pin_literal = 19%nat) by reflexivity.
    destruct (decide (k = 0%nat)) as [->|Hk0].
    { rewrite drop_0 in Hp.
      destruct v as [|d v].
      - exfalso. pose proof (match_pin_pinned _ _ _ Hp) as Hsome.
        cbn [app] in Hsome. unfold match_pin in Hsome.
        rewrite startswith_app, drop_app_length in Hsome.
        destruct (substitute_pin [] rest) as [|x xs]; [discriminate Hsome|].
        cbn in Hrest. cbn [take_version] in Hsome. rewrite Hrest in Hsome.
        discriminate Hsome.
      - symmetry. eapply pinned_run; [exact Hp|].
        repeat split; try assumption. discriminate. }
    destruct (decide (k <= 18)%nat) as [Hk18|Hk18].
    { exfalso. apply pinned_starts in Hp.
      rewrite drop_app_le in Hp by lia.
      rewrite no_pin_inside_literal in Hp by lia. discriminate Hp. }
    rewrite drop_app_ge in Hp by lia.
    destruct (decide (k - length pin_literal < length v)%nat) as [Hin|Hout].
    { exfalso. rewrite drop_app_le in Hp by lia.
      destruct (drop (k - length pin_literal) v) as [|x xs] eqn:Hdrop.
      - apply (f_equal length) in Hdrop. rewrite length_drop in Hdrop.
        simpl in Hdrop. lia.
      - assert (Hx : version_char x = true).
        { assert (Hall : Forall (fun c => version_char c = true) (x :: xs))
            by (rewrite <- Hdrop; now apply Forall_drop).
          now apply Forall_cons in Hall as [? _]. }
        apply pinned_starts in Hp. cbn in Hp.
        destruct (Ascii.eqb_spec x "i") as [->|_]; [discriminate Hx|discriminate Hp]. }
    rewrite drop_app_ge in Hp by lia.
    eapply IH; [exact Hshorter|exact Hp].
  - rewrite substitute_pin_keep in Hp by assumption.
    destruct k as [|k].
    + exfalso. rewrite drop_0 in Hp.
      pose proof (substitute_pin_no_new_match v c s Hm) as Hnone.
      rewrite (match_pin_pinned _ _ _ Hp) in Hnone. discriminate Hnone.
    + rewrite skipn_cons in Hp. eapply IH; [|exact Hp]. simpl. lia.
Qed.

(** X10.  After the substitution with a version of digits and dots, every pin in
    the text carries that version: wherever the updated text holds the
    literal [inter-service-sdk==] followed by a run of digits and dots that
    cannot be made longer, the run is the new version. *)
Theorem pin_dependency_pins_new_version (new_version content updated : str) :
  Forall (fun c => version_char c = true) new_version ->
  pin_dependency new_version content = Some updated ->
  forall before run after : str,
    updated = before ++ pin_literal ++ run ++ after ->
    run <> [] ->
    Forall (fun c => version_char c = true) run ->
    starts_version after = false ->
    run = new_version.
Proof.
  intros Hv Hrun before run after Hupdated Hne Hall Hafter.
  unfold pin_dependency in Hrun.
  destruct (existsb _ _); [discriminate|]. injection Hrun as <-.
  apply (substitute_pin_pins new_version content Hv (length before) run after).
  rewrite Hupdated, drop_app_length. now repeat split.
Qed.

(** [pin_dependency_pins_new_version] on a pin followed by a marker. *)
Lemma pin_dependency_pins_new_version_witness :
  Forall (fun c => version_char c = true) $"2.0"
  /\ pin_dependency $"2.0" ($"a" ++ [LF] ++ $"inter-service-sdk==1.4.9;x")
     = Some ($"a" ++ [LF] ++ pin_literal ++ $"2.0" ++ $";x")
  /\ $"2.0" = $"2.0".
Proof.
  assert (Hv : Forall (fun c => version_char c = true) $"2.0") by repeat constructor.
  split; [exact Hv|split; [reflexivity|]].
  refine (pin_dependency_pins_new_version $"2.0"
            ($"a" ++ [LF] ++ $"inter-service-sdk==1.4.9;x") _ Hv eq_refl
            ($"a" ++ [LF]) $"2.0" $";x" eq_refl _ Hv eq_refl).
  discriminate.
Defined.

(** ** update_dependent_projects on the file system *)

Lemma sub_pin_forall (P : ascii -> Prop) (repl s : str) (skip : nat) :
  Forall P repl -> Forall P s -> Forall P (sub_pin repl skip s).
Proof.
  intros Hrepl Hs. revert skip.
  induction Hs as [|c s Hc _ IH]; intros skip; cbn [sub_pin]; [constructor|].
  destruct skip; [|apply IH].
  destruct (match_pin (c :: s)).
  - apply Forall_app. split; [exact Hrepl|apply IH].
  - constructor; [exact Hc|apply IH].
Qed.

Lemma version_char_no_cr (v : str) :
  Forall (fun c => version_char c = true) v ->
  Forall (fun c => c <> CR) (pin_literal ++ v).
Proof.
  intros Hv. apply Forall_app. split.
  - vm_compute. repeat constructor; discriminate.
  - eapply Forall_impl; [exact Hv|]. intros c Hc ->. discriminate Hc.
Qed.

(** *** The template

    A replacement without a backslash compiles into its own characters, so
    the literal path of [re.sub] and the template compiler agree on it. *)
Lemma parse_template_literal (s : str) :
  existsb (Ascii.eqb backslash) s = false ->
  parse_template None s = Some (map Literal s).
Proof.
  induction s as [|c s IH]; [reflexivity|].
  cbn [existsb parse_template map]. rewrite Ascii.eqb_sym.
  destruct (Ascii.eqb c backslash); [discriminate|].
  cbn [orb]. intros Hs. now rewrite (IH Hs).
Qed.

Lemma expand_template_literal (s matched : str) :
  expand_template (map Literal s) matched = s.
Proof.
  unfold expand_template. induction s as [|c s IH]; [reflexivity|].
  cbn [map flat_map app]. now rewrite IH.
Qed.

Lemma sub_template_literal (repl s : str) (skip : nat) :
  sub_template (map Literal repl) skip s = sub_pin repl skip s.
Proof.
  revert skip. induction s as [|c s IH]; intros skip; [reflexivity|].
  cbn [sub_template sub_pin]. destruct skip; [|apply IH].
  destruct (match_pin (c :: s)); rewrite IH; [|reflexivity].
  now rewrite expand_template_literal.
Qed.

Lemma re_sub_pin_literal (v content : str) :
  existsb (Ascii.eqb backslash) (pin_literal ++ v) = false ->
  re_sub_pin v content = Some (substitute_pin v content).
Proof. intros Hv. unfold re_sub_pin, pin_dependency. now rewrite Hv. Qed.

(** [re.sub] raises exactly when the template compiler refuses the
    replacement. *)
Lemma re_sub_pin_template (v content : str) :
  re_sub_pin v content
  = (template ← parse_template None (pin_literal ++ v);
     Some (sub_template template 0 content)).
Proof.
  unfold re_sub_pin, pin_dependency.
  destruct (existsb _ _) eqn:Hv; [reflexivity|].
  rewrite (parse_template_literal _ Hv). cbn [mbind option_bind].
  now rewrite sub_template_literal.
Qed.

Lemma match_pin_unmentioned (s : str) : ~ mentions_pin s -> match_pin s = None.
Proof.
  intros Hno. unfold match_pin.
  destruct (PyStr.startswith s pin_literal) eqn:Hstart; [|reflexivity].
  destruct (startswith_true _ _ Hstart) as [after Hs].
  exfalso. apply Hno. now exists [], after.
Qed.

(** A text that does not hold the literal is kept, whatever the template. *)
Lemma sub_template_unmentioned (template : list template_item) (s : str) :
  ~ mentions_pin s -> sub_template template 0 s = s.
Proof.
  induction s as [|c s IH]; [reflexivity|].
  intros Hno. cbn [sub_template]. rewrite (match_pin_unmentioned _ Hno).
  f_equal. apply IH. intros (before & after & ->).
  apply Hno. now exists (c :: before), after.
Qed.

Lemma pinned_file_unmentioned (os : platform) (v raw : str) :
  ~ mentions_pin (read_newlines raw) -> pinned_file os v raw = raw.
Proof.
  intros Hno. unfold pinned_file. rewrite re_sub_pin_template.
  destruct (parse_template None (pin_literal ++ v)) as [template|];
    [|reflexivity].
  cbn [mbind option_bind].
  now rewrite decide_True by now apply sub_template_unmentioned.
Qed.

Lemma pinned_file_literal (os : platform) (v raw : str) :
  existsb (Ascii.eqb backslash) (pin_literal ++ v) = false ->
  pinned_file os v raw
  = (if decide (substitute_pin v (read_newlines raw) = read_newlines raw)
     then raw else write_newlines os (substitute_pin v (read_newlines raw))).
Proof. intros Hv. unfold pinned_file. now rewrite re_sub_pin_literal. Qed.

Lemma pinned_file_refused (os : platform) (v raw : str) :
  parse_template None (pin_literal ++ v) = None -> pinned_file os v raw = raw.
Proof.
  intros Hv. unfold pinned_file. now rewrite re_sub_pin_template, Hv.
Qed.

(** *** The loop *)

(** One round of the loop applies [pinned_file] to the file, if it is there. *)
Lemma update_requirements_alter (os : platform) (v : str)
    (fs : gmap string str) (req_file : string) :
  update_requirements os v fs req_file = alter (pinned_file os v) req_file fs.
Proof.
  unfold update_requirements.
  destruct (fs !! req_file) as [raw|] eqn:Hraw;
    apply map_eq; intros path; rewrite lookup_alter.
  - assert (Hfile : pinned_file os v <$> fs !! req_file
                    = Some (pinned_file os v raw)) by now rewrite Hraw.
    rewrite Hfile. unfold pinned_file.
    destruct (re_sub_pin v (read_newlines raw)) as [updated_content|].
    + destruct (decide (updated_content = read_newlines raw)).
      * case_decide; [subst path; exact Hraw|reflexivity].
      * unfold write_text. rewrite lookup_insert. case_decide; reflexivity.
    + case_decide; [subst path; exact Hraw|reflexivity].
  - case_decide; [subst path; now rewrite Hraw|reflexivity].
Qed.

Lemma update_dependent_projects_alter (os : platform) (v : str)
    (fs : gmap string str) :
  update_dependent_projects os v fs
  = alter (pinned_file os v) "../browser-ninja/requirements.txt"
      (alter (pinned_file os v) "../auto_login/requirements.txt" fs).
Proof.
  unfold update_dependent_projects, projects. cbn [foldl].
  now rewrite !update_requirements_alter.
Qed.

Lemma update_dependent_projects_lookup (os : platform) (v : str)
    (fs : gmap string str) (path : string) :
  update_dependent_projects os v fs !! path
  = if decide (path ∈ projects) then pinned_file os v <$> fs !! path
    else fs !! path.
Proof.
  rewrite update_dependent_projects_alter, !lookup_alter. unfold projects.
  repeat case_decide; subst; try reflexivity;
    rewrite ?elem_of_cons, ?elem_of_nil in *; try tauto; try discriminate.
  all: exfalso; intuition congruence.
Qed.

(** What a second run finds in a file is what the first run left. *)
Lemma pinned_file_again (os : platform) (v raw : str) :
  Forall (fun c => version_char c = true) v ->
  pinned_file os v (pinned_file os v raw) = pinned_file os v raw.
Proof.
  intros Hv. pose proof (version_char_no_backslash _ Hv) as Hb.
  rewrite (pinned_file_literal os v raw Hb).
  destruct (decide (substitute_pin v (read_newlines raw) = read_newlines raw))
    as [Hsame|Hdiff]; rewrite (pinned_file_literal _ _ _ Hb).
  - now rewrite decide_True by assumption.
  - rewrite read_write_newlines
      by (apply sub_pin_forall; [now apply version_char_no_cr|apply read_newlines_no_cr]).
    rewrite substitute_pin_idempotent by assumption.
    now rewrite decide_True by reflexivity.
Qed.

(** X7.  [update_dependent_projects] returns for every version, and it
    changes nothing but the two requirements files: every other path keeps
    what it held, a requirements file that is missing is not created, one
    whose text does not hold the literal [inter-service-sdk==] keeps its
    very characters (it is not written back, so not even its line ends
    change), and one that exists ends as [pinned_file] says: with the
    substituted text written out when [re.sub] returns another text, as it
    was otherwise.  When [re] refuses the version as a template, which
    [except Exception] catches, no file changes at all. *)
Theorem update_dependent_projects_frame (os : platform) (new_version : str)
    (fs : gmap string str) :
  (forall path : string,
      path ∉ projects ->
      update_dependent_projects os new_version fs !! path = fs !! path)
  /\ (forall path : string,
        fs !! path = None ->
        update_dependent_projects os new_version fs !! path = None)
  /\ (forall (path : string) (raw : str),
        fs !! path = Some raw -> ~ mentions_pin (read_newlines raw) ->
        update_dependent_projects os new_version fs !! path = Some raw)
  /\ (forall (path : string) (raw : str),
        path ∈ projects -> fs !! path = Some raw ->
        update_dependent_projects os new_version fs !! path
        = Some (pinned_file os new_version raw))
  /\ (parse_template None (pin_literal ++ new_version) = None ->
      update_dependent_projects os new_version fs = fs).
Proof.
  split; [|split; [|split; [|split]]].
  - intros path Hpath. rewrite update_dependent_projects_lookup.
    now rewrite decide_False by assumption.
  - intros path Hnone. rewrite update_dependent_projects_lookup, Hnone.
    now case_decide.
  - intros path raw Hraw Hno. rewrite update_dependent_projects_lookup, Hraw.
    case_decide; [|reflexivity].
    cbn. now rewrite pinned_file_unmentioned.
  - intros path raw Hpath Hraw. rewrite update_dependent_projects_lookup, Hraw.
    now rewrite decide_True by assumption.
  - intros Hrefused. apply map_eq. intros path.
    rewrite update_dependent_projects_lookup.
    case_decide; [|reflexivity].
    destruct (fs !! path) as [raw|]; [|reflexivity].
    cbn. now rewrite pinned_file_refused.
Qed.

(** [update_dependent_projects_frame] on two dependent projects with
    carriage returns: the one without a pin keeps them, the pinned one is
    written back without; and with a version that [re] refuses as a
    template, both stay as they are. *)
Lemma update_dependent_projects_frame_witness :
  update_dependent_projects Posix $"1.5.0" dependents
    !! "../browser-ninja/requirements.txt"%string
  = Some ($"selenium" ++ [CR; LF] ++ $"inter-service-sdk>=1.0" ++ [CR; LF])
  /\ update_dependent_projects Posix $"1.5.0" dependents
       !! "../auto_login/requirements.txt"%string
     = Some ($"requests>=2.0" ++ [LF] ++ $"inter-service-sdk==1.5.0" ++ [LF])
  /\ update_dependent_projects Posix $"1.5.0" dependents
       !! "requirements.txt"%string = None
  /\ update_dependent_projects Posix (backslash :: $"1.5.0") dependents = dependents.
Proof.
  destruct (update_dependent_projects_frame Posix $"1.5.0" dependents)
    as (Hother & Hmissing & Hkept & Hpinned & _).
  split; [|split; [|split]].
  - apply Hkept; [reflexivity|].
    intros (before & after & Heq). vm_compute in Heq.
    repeat (destruct before as [|? before]; [discriminate Heq|];
            injection Heq as ? Heq; subst).
    destruct before; discriminate Heq.
  - rewrite (Hpinned "../auto_login/requirements.txt"%string _
               ltac:(unfold projects; left) eq_refl).
    reflexivity.
  - now apply Hmissing.
  - now apply (update_dependent_projects_frame Posix (backslash :: $"1.5.0") dependents).
Defined.

(** A version that holds a reference to the whole match keeps the old pin
    and writes after it. *)
Example update_dependent_projects_whole_match :
  update_dependent_projects Posix ($"9 # was " ++ backslash :: $"g<0>") dependents
    !! "../auto_login/requirements.txt"%string
  = Some ($"requests>=2.0" ++ [LF]
          ++ $"inter-service-sdk==9 # was inter-service-sdk==1.4.9" ++ [LF]).
Proof. reflexivity. Qed.

(** An escape in the version is expanded: [\n] is written as a line end. *)
Example update_dependent_projects_escape :
  update_dependent_projects Windows ($"2.0" ++ backslash :: $"n") dependents
    !! "../auto_login/requirements.txt"%string
  = Some ($"requests>=2.0" ++ [CR; LF]
          ++ $"inter-service-sdk==2.0" ++ [CR; LF; CR; LF]).
Proof. reflexivity. Qed.

Lemma update_dependent_projects_twice (os : platform) (v : str)
    (fs : gmap string str) :
  Forall (fun c => version_char c = true) v ->
  update_dependent_projects os v (update_dependent_projects os v fs)
  = update_dependent_projects os v fs.
Proof.
  intros Hv. rewrite !update_dependent_projects_alter.
  apply map_eq. intros path. rewrite !lookup_alter.
  repeat case_decide; subst; try discriminate; try reflexivity;
    rewrite <- ?option_fmap_compose;
    destruct (fs !! _) as [raw|]; cbn; try reflexivity;
    now rewrite pinned_file_again.
Qed.

(** X8.  With a version of digits and dots, [update_dependent_projects] always
    returns (it is a function of the file system, as for every version),
    and running it again on what it returned changes no file. *)
Theorem update_dependent_projects_idempotent (os : platform) (new_version : str)
    (fs : gmap string str) :
  Forall (fun c => version_char c = true) new_version ->
  update_dependent_projects os new_version
    (update_dependent_projects os new_version fs)
  = update_dependent_projects os new_version fs.
Proof. apply update_dependent_projects_twice. Qed.

(** [update_dependent_projects_idempotent] on two dependent projects. *)
Lemma update_dependent_projects_idempotent_witness :
  Forall (fun c => version_char c = true) $"1.5.0"
  /\ update_dependent_projects Windows $"1.5.0"
       (update_dependent_projects Windows $"1.5.0" dependents)
     = update_dependent_projects Windows $"1.5.0" dependents.
Proof.
  assert (Hv : Forall (fun c => version_char c = true) $"1.5.0") by repeat constructor.
  split; [exact Hv|]. exact (update_dependent_projects_idempotent Windows _ dependents Hv).
Defined.

(** ** From the bump to the pin *)

Lemma digit_version_char (c : ascii) :
  is_Some (PyStr.digit c) -> version_char c = true.
Proof.
  intros [d Hd].
  destruct c as [[] [] [] [] [] [] [] []]; vm_compute in Hd; try discriminate;
    reflexivity.
Qed.

Lemma decimal_version_chars (z : Z) :
  0 <= z -> Forall (fun c => version_char c = true) (PyStr.decimal z).
Proof.
  intros Hz. unfold PyStr.decimal.
  destruct z as [|p|p]; [| |lia]; cbn [Z.to_int];
    (eapply Forall_impl; [apply show_uint_digits|apply digit_version_char]).
Qed.

(** X11.  The version [main] pins is fit for the pin substitution: when the
    three parts of the current version read as integers that are not
    negative and the new patch number is below [digit_limit], so that the
    f-string writes it, [increment_version] returns a version of digits and
    dots, and [update_dependent_projects] with that version changes nothing
    when run again, on every file system. *)
Theorem bumped_version_pins (s p0 p1 p2 : str) (a b c : Z) :
  PyStr.split dot s = [p0; p1; p2] ->
  py_int p0 = Ok a -> py_int p1 = Ok b -> py_int p2 = Ok c ->
  0 <= a -> 0 <= b -> 0 <= c -> c + 1 < digit_limit ->
  exists new_version : str,
    increment_version s = Ok new_version
    /\ Forall (fun x => version_char x = true) new_version
    /\ forall (os : platform) (fs : gmap string str),
         update_dependent_projects os new_version
           (update_dependent_projects os new_version fs)
         = update_dependent_projects os new_version fs.
Proof.
  intros Hs H0 H1 H2 Ha Hb Hc Hlimit.
  exists (numeral_version a b (c + 1)).
  assert (Hv : Forall (fun x => version_char x = true) (numeral_version a b (c + 1))).
  { unfold numeral_version. rewrite !Forall_app.
    repeat split; try (apply decimal_version_chars; lia);
      repeat constructor. }
  split; [now apply (increment_version_parts s p0 p1 p2)|split; [exact Hv|]].
  intros os fs. now apply update_dependent_projects_twice.
Qed.

(** [bumped_version_pins] from version 1.4.9. *)
Lemma bumped_version_pins_witness :
  exists new_version : str,
    increment_version $"1.4.9" = Ok new_version
    /\ Forall (fun x => version_char x = true) new_version
    /\ forall (os : platform) (fs : gmap string str),
         update_dependent_projects os new_version
           (update_dependent_projects os new_version fs)
         = update_dependent_projects os new_version fs.
Proof.
  refine (bumped_version_pins $"1.4.9" $"1" $"4" $"9" 1 4 9
            eq_refl eq_refl eq_refl eq_refl _ _ _ _); try lia.
  apply below_digit_limit. reflexivity.
Defined.
